(** * obsidian-linter: rule registry, metadata-block rules and region masking

    A shallow embedding of [src/rules.ts], of the rules
    [YamlTitleAlias], [ForceYamlEscape] and
    [SpaceBetweenChineseJapaneseOrKoreanAndEnglishOrNumbers], and of the
    helpers of [utils/yaml], [utils/regex] and [utils/ignore-types] they
    call.

    Conventions.
    - A JavaScript string is a [string] (a sequence of 8-bit code units);
      rule names, YAML keys and the documents of the YAML rules are ASCII
      in every statement below.  The CJK spacing rule needs characters
      outside ASCII and works on sequences of code points ([list N]), as
      its regular expressions (flag [u]) do.
    - [undefined]/[null] results are [None].
    - A call that may throw returns a [Completion]. *)

From Stdlib Require Import String Ascii ZArith List Lia Sorted Bool.
From stdpp Require Import gmap strings list.

Local Open Scope string_scope.
Local Open Scope Z_scope.

(** ** JavaScript values and string primitives *)

Module Js.

(** The outcome of a call: normal completion or a thrown value. *)
Inductive Completion (A E : Type) : Type :=
| Normal (a : A)
| Throw (e : E).
Arguments Normal {A E} a.
Arguments Throw {A E} e.

(** [s.startsWith(p)]. *)
Fixpoint startsWith (p s : string) : bool :=
  match p, s with
  | EmptyString, _ => true
  | String a p', String b s' => if Ascii.eqb a b then startsWith p' s' else false
  | String _ _, EmptyString => false
  end.

(** [s.includes(sub)]. *)
Fixpoint includes (s sub : string) : bool :=
  if startsWith sub s then true
  else match s with
       | EmptyString => false
       | String _ s' => includes s' sub
       end.

(** [s.indexOf(c)] for a one-character needle: [-1] when absent. *)
Fixpoint indexOf (c : ascii) (s : string) : Z :=
  match s with
  | EmptyString => -1
  | String a s' =>
      if Ascii.eqb a c then 0
      else let i := indexOf c s' in if i <? 0 then -1 else i + 1
  end.

Fixpoint dropChars (n : nat) (s : string) : string :=
  match n, s with
  | O, _ => s
  | S n', String _ s' => dropChars n' s'
  | S _, EmptyString => EmptyString
  end.

(** [s.substring(start)]: a negative start counts as 0, one past the end
    gives the empty string. *)
Definition substring (start : Z) (s : string) : string :=
  dropChars (Z.to_nat start) s.

(** ASCII part of [toLowerCase]. *)
Definition lowerChar (c : ascii) : ascii :=
  let n := nat_of_ascii c in
  if (65 <=? n)%nat && (n <=? 90)%nat then ascii_of_nat (n + 32) else c.

Fixpoint toLowerCase (s : string) : string :=
  match s with
  | EmptyString => EmptyString
  | String c s' => String (lowerChar c) (toLowerCase s')
  end.

(** [s.replace(/ /g, '-')]. *)
Fixpoint replaceSpaces (s : string) : string :=
  match s with
  | EmptyString => EmptyString
  | String c s' =>
      String (if Ascii.eqb c " "%char then "-"%char else c) (replaceSpaces s')
  end.

(** The double-quote character, as a one-character string. *)
Definition dquote : string := String (ascii_of_nat 34) EmptyString.

End Js.

Import Js.

(** ** [src/rules.ts]: rules, options and settings *)

(** [Options = {[optionName: string]: any}]: the values an option takes. *)
Inductive OptionValue : Type :=
| VBool (b : bool)
| VNumber (z : Z)
| VString (s : string)
| VStrings (l : list string).

Abbreviation Options := (gmap string OptionValue).

(** [enum RuleType], in declaration order. *)
Inductive RuleType : Type := YAML | HEADING | FOOTNOTE | CONTENT | SPACING | PASTE.

Definition RuleType_eqb (a b : RuleType) : bool :=
  match a, b with
  | YAML, YAML | HEADING, HEADING | FOOTNOTE, FOOTNOTE
  | CONTENT, CONTENT | SPACING, SPACING | PASTE, PASTE => true
  | _, _ => false
  end.

(** [RuleTypeOrder = Object.values(RuleType)]. *)
Definition RuleTypeOrder : list RuleType :=
  [YAML; HEADING; FOOTNOTE; CONTENT; SPACING; PASTE].

(** [RuleTypeOrder.indexOf(t)]. *)
Fixpoint indexOfType (t : RuleType) (l : list RuleType) : Z :=
  match l with
  | [] => -1
  | x :: l' =>
      if RuleType_eqb x t then 0
      else let i := indexOfType t l' in if i <? 0 then -1 else i + 1
  end.

(** Modelled from the spec: the [Option] class of [src/option.ts] is not
    part of the sources; an option descriptor carries a name, a
    description, a default value and the name of the rule it belongs to
    (spec 6: "a configuration-option schema description (name, default,
    description)"). *)
Record RuleOption : Type := mkOption {
  optionName : string;
  optionDescription : string;
  defaultValue : OptionValue;
  ruleName : string
}.

(** [new BooleanOption(name, description, defaultValue)]. *)
Definition BooleanOption (n d : string) (b : bool) : RuleOption :=
  mkOption n d (VBool b) "".

Definition ApplyFunction : Type := string -> Options -> string.

Record Rule : Type := mkRule {
  name : string;
  description : string;
  type : RuleType;
  options : list RuleOption;
  apply : ApplyFunction;
  hasSpecialExecutionOrder : bool
}.

(** The constructor of [Rule]: the enabled flag is put in front of the
    options and every option is tagged with the rule's name. *)
Definition newRule (n d : string) (t : RuleType) (f : ApplyFunction)
    (opts : list RuleOption) (special : bool) : Rule :=
  let opts' := BooleanOption d "" false :: opts in
  mkRule n d t
    (List.map (fun o => mkOption (optionName o) (optionDescription o) (defaultValue o) n) opts')
    f special.

Definition alias (r : Rule) : string := toLowerCase (replaceSpaces (name r)).

Definition getDefaultOptions (r : Rule) : Options :=
  fold_left (fun (m : Options) o => <[optionName o := defaultValue o]> m) (options r) ∅.

Record LinterSettings : Type := mkSettings {
  ruleConfigs : gmap string Options;
  lintOnSave : bool;
  displayChanged : bool;
  foldersToIgnore : list string;
  linterLocale : string;
  logLevel : Z
}.

(** [settings.ruleConfigs[this.name]]; [None] is [undefined]. *)
Definition getOptions (r : Rule) (settings : LinterSettings) : option Options :=
  ruleConfigs settings !! name r.

Definition getURL (r : Rule) : string :=
  "https://github.com/platers/obsidian-linter/blob/master/docs/rules.md" +:+ "#" +:+ alias r.

Definition enabledOptionName (r : Rule) : option string :=
  match options r with
  | o :: _ => Some (optionName o)
  | [] => None
  end.

(** ** The registry *)

(** [Array.prototype.sort(cmp)] is a stable sort: with a consistent
    comparator its result is the one stable sorted arrangement, which the
    insertion below computes ([x] goes behind every element it does not
    strictly precede). *)
Section Sort.
Context {A : Type} (cmp : A -> A -> Z).

Fixpoint insertSorted (x : A) (l : list A) : list A :=
  match l with
  | [] => [x]
  | y :: l' => if cmp x y <? 0 then x :: y :: l' else y :: insertSorted x l'
  end.

Definition sort (l : list A) : list A :=
  fold_left (fun acc x => insertSorted x acc) l [].
End Sort.

(** A JavaScript error value, as far as [wrapLintError] looks at it. *)
Record JsError : Type := mkError {
  isYAMLException : bool;      (* [error instanceof YAMLException] *)
  errorMessage : string;       (* [error.message] *)
  errorToString : string       (* [error.toString()] *)
}.

(** Modelled from the spec: the class [LinterError] of
    [src/linter-error.ts] is not part of the sources; the error that
    leaves the executor carries "a human-readable message, and the
    original cause" (section 7), the two arguments of the constructor call
    in [wrapLintError]. *)
Record LinterError : Type := mkLinterError {
  linterMessage : string;
  cause : JsError
}.

Record Registry : Type := mkRegistry {
  rules : list Rule;
  rulesDict : gmap string Rule
}.

(** [rules = []] and [rulesDict = rules.reduce(..., {})] at module load. *)
Definition emptyRegistry : Registry := mkRegistry [] ∅.

Section Registry.
(** [String.prototype.localeCompare] depends on the host's collation. *)
Variable localeCompare : string -> string -> Z.

(** The comparator of [registerRule]: [d || c] is [c] when [d] is 0. *)
Definition compareRules (a b : Rule) : Z :=
  let d := indexOfType (type a) RuleTypeOrder - indexOfType (type b) RuleTypeOrder in
  if d =? 0 then localeCompare (name a) (name b) else d.

Definition registerRule (reg : Registry) (rule : Rule) : Completion Registry LinterError :=
  let rules1 := (rules reg ++ [rule])%list in
  let rules2 := sort compareRules rules1 in
  Normal (mkRegistry rules2 (<[alias rule := rule]> (rulesDict reg))).
End Registry.

Definition wrapLintError (error : JsError) (ruleName : string) : Completion unit LinterError :=
  let errorMessage :=
    if isYAMLException error then
      let errorMessage := errorToString error in
      "error in the yaml: " +:+ substring (indexOf ":"%char errorMessage + 1) errorMessage
    else
      "unknown error: " +:+ errorMessage error in
  Throw (mkLinterError (dquote +:+ ruleName +:+ dquote +:+ " encountered an " +:+ errorMessage) error).

(** Position of a rule's category in the fixed category order. *)
Definition typeIndex (r : Rule) : Z := indexOfType (type r) RuleTypeOrder.

(** Code-unit order on strings, as a comparator: the collation of the
    ["en"] locale restricted to lower-case ASCII letters and digits agrees
    with it. *)
Definition codeUnitCompare (a b : string) : Z :=
  match String.compare a b with
  | Lt => -1
  | Eq => 0
  | Gt => 1
  end.

(** What "falling back to each option's declared default for missing
    keys" asks of [getOptions]. *)
Definition resolvesWithDefaults (r : Rule) (s : LinterSettings) : Prop :=
  exists m : Options,
    getOptions r s = Some m /\
    forall o, In o (options r) ->
      default (∅ : Options) (ruleConfigs s !! name r) !! optionName o = None ->
      m !! optionName o = Some (defaultValue o).

(** The option that [getDefaultOptions] keeps for a key: the last one
    declared under that name. *)
Definition lastDeclared (k : string) (opts : list RuleOption) : option RuleOption :=
  find (fun o => String.eqb (optionName o) k) (rev opts).

(** Sample rules and settings. *)
Definition noop : ApplyFunction := fun text _ => text.

Definition demoRule : Rule :=
  newRule "Demo Rule" "Demo description" CONTENT noop
    [mkOption "style" "Preferred style" (VString "multi-line") ""] false.

Definition demoRuleShadow : Rule :=
  newRule "demo rule" "Another description" YAML noop [] false.

Definition settingsWithout : LinterSettings :=
  mkSettings ∅ false false [] "en" 0.

Definition settingsWithEmpty : LinterSettings :=
  mkSettings {[ "Demo Rule" := (∅ : Options) ]} false false [] "en" 0.

(** ** More string primitives *)

Module Str.

(** The line feed, as a one-character string. *)
Definition nl : string := String (ascii_of_nat 10) EmptyString.
Definition nlChar : ascii := ascii_of_nat 10.
Definition tabChar : ascii := ascii_of_nat 9.

(** [s.split(c)] for a one-character separator: never empty. *)
Fixpoint splitOn (c : ascii) (s : string) : list string :=
  match s with
  | EmptyString => [EmptyString]
  | String a s' =>
      if Ascii.eqb a c then EmptyString :: splitOn c s'
      else match splitOn c s' with
           | h :: t => String a h :: t
           | [] => [String a EmptyString]
           end
  end.

(** [l.joinWith(sep)]. *)
Fixpoint joinWith (sep : string) (l : list string) : string :=
  match l with
  | [] => EmptyString
  | [x] => x
  | x :: l' => x +:+ sep +:+ joinWith sep l'
  end.

Fixpoint concatStrings (l : list string) : string :=
  match l with
  | [] => EmptyString
  | x :: l' => x +:+ concatStrings l'
  end.

(** Every line followed by a line feed. *)
Definition unlines (l : list string) : string :=
  concatStrings (List.map (fun x => x +:+ nl) l).

Fixpoint takeChars (n : nat) (s : string) : string :=
  match n, s with
  | O, _ => EmptyString
  | S n', String a s' => String a (takeChars n' s')
  | S _, EmptyString => EmptyString
  end.

(** [s.indexOf(pat)] for a string needle; [None] is [-1]. *)
Fixpoint indexOfStr (pat s : string) : option nat :=
  if startsWith pat s then Some O
  else match s with
       | EmptyString => None
       | String _ s' => option_map S (indexOfStr pat s')
       end.

(** The replacement patterns of [String.prototype.replace] with a string
    pattern: [$$], [$&], [$`] and [$'] are special, any other [$] is
    literal. *)
Fixpoint expandReplacement (rep before matched after : string) : string :=
  match rep with
  | EmptyString => EmptyString
  | String a rep' =>
      if Ascii.eqb a "$"%char then
        match rep' with
        | String b rep'' =>
            if Ascii.eqb b "$"%char then String "$" (expandReplacement rep'' before matched after)
            else if Ascii.eqb b "&"%char then matched +:+ expandReplacement rep'' before matched after
            else if Ascii.eqb b "`"%char then before +:+ expandReplacement rep'' before matched after
            else if Ascii.eqb b "'"%char then after +:+ expandReplacement rep'' before matched after
            else String a (expandReplacement rep' before matched after)
        | EmptyString => String a EmptyString
        end
      else String a (expandReplacement rep' before matched after)
  end.

(** [s.replace(pat, rep)] with a string pattern: the first occurrence only. *)
Definition replaceFirst (pat rep s : string) : string :=
  match indexOfStr pat s with
  | None => s
  | Some i =>
      let before := takeChars i s in
      let after := dropChars (i + String.length pat) s in
      before +:+ expandReplacement rep before pat after +:+ after
  end.

Definition isBlank (c : ascii) : bool :=
  Ascii.eqb c " "%char || Ascii.eqb c tabChar.

Definition isSpace (c : ascii) : bool :=
  isBlank c || Ascii.eqb c nlChar || Ascii.eqb c (ascii_of_nat 13).

Fixpoint trimStart (s : string) : string :=
  match s with
  | String a s' => if isSpace a then trimStart s' else s
  | EmptyString => EmptyString
  end.

Fixpoint reverse (s : string) : string :=
  match s with
  | EmptyString => EmptyString
  | String a s' => reverse s' +:+ String a EmptyString
  end.

Definition trimEnd (s : string) : string := reverse (trimStart (reverse s)).

(** [s.trim()]. *)
Definition trim (s : string) : string := trimEnd (trimStart s).

Definition lastChar (s : string) : option ascii :=
  match reverse s with
  | String a _ => Some a
  | EmptyString => None
  end.

Definition firstChar (s : string) : option ascii :=
  match s with
  | String a _ => Some a
  | EmptyString => None
  end.

End Str.

Import Str.

(** ** Parsed YAML and [getDisabledRules] *)

(** What the js-yaml parser returns. *)
#[warnings="-register-all"]
Inductive YamlValue : Type :=
| YNull
| YBool (b : bool)
| YNumber (z : Z)
| YString (s : string)
| YSeq (l : list YamlValue)
| YMap (m : list (string * YamlValue)).

Definition typeError (msg : string) : JsError :=
  mkError false msg ("TypeError: " +:+ msg).

(** JavaScript truthiness; [None] is [undefined]. *)
Definition truthy (v : option YamlValue) : bool :=
  match v with
  | None | Some YNull => false
  | Some (YBool b) => b
  | Some (YNumber z) => negb (z =? 0)
  | Some (YString s) => negb (String.eqb s "")
  | Some (YSeq _) | Some (YMap _) => true
  end.

Fixpoint assoc (k : string) (m : list (string * YamlValue)) : option YamlValue :=
  match m with
  | [] => None
  | (k', v) :: m' => if String.eqb k' k then Some v else assoc k m'
  end.

(** [v[k]]: reading a property of [null] throws, a key that is absent
    reads [undefined]. *)
Definition getProperty (v : YamlValue) (k : string) : Completion (option YamlValue) JsError :=
  match v with
  | YNull => Throw (typeError "Cannot read properties of null")
  | YMap m => Normal (assoc k m)
  | _ => Normal None
  end.

(** [x === 'all'] for an element of the parsed array. *)
Definition isAll (v : YamlValue) : bool :=
  match v with
  | YString s => String.eqb s "all"
  | _ => false
  end.

(** The text handed to the parser: the key put back in front of the raw
    value. *)
Definition disabledRulesKeyAndValue (disabledRulesValue : string) : string :=
  (if includes disabledRulesValue nl
   then "disabled rules:" +:+ nl else "disabled rules: ")
  +:+ disabledRulesValue.

(** The aliases of all registered rules: [rules.map((rule) => rule.alias())]. *)
Definition allAliases (rules : list Rule) : list YamlValue :=
  List.map (fun rule => YString (alias rule)) rules.

(** The disabled set as the specification words it (4.3,
    [disabledAliasesFor]), from the parsed value of the key: every alias
    for the literal token [all], nothing when absent, otherwise the
    parsed array, or the parsed scalar as a one-element list. *)
Definition disabledAliasesFor (rules : list Rule) (parsed : option YamlValue)
  : list YamlValue :=
  match parsed with
  | None => []
  | Some (YSeq l) => l
  | Some (YString s) => if String.eqb s "all" then allAliases rules else [YString s]
  | Some v => [v]
  end.

Section DisabledRules.
(** [text.match(yamlRegex)], reduced to its first group. *)
Variable matchYaml : string -> option string.
Variable getYamlSectionValue : string -> string -> option string.
Variable loadYAML : string -> Completion YamlValue JsError.

Definition getDisabledRules (rules : list Rule) (text : string)
  : Completion (list YamlValue) JsError :=
  match matchYaml text with
  | None => Normal []
  | Some yaml_text =>
    match getYamlSectionValue yaml_text "disabled rules" with
    | None => Normal []
    | Some disabledRulesValue =>
      match loadYAML (disabledRulesKeyAndValue disabledRulesValue) with
      | Throw e => Throw e
      | Normal parsed_yaml =>
        match getProperty parsed_yaml "disabled rules" with
        | Throw e => Throw e
        | Normal disabled_rules =>
          if negb (truthy disabled_rules) then Normal []
          else
            match disabled_rules with
            | Some (YString s) =>
                if existsb isAll [YString s]
                then Normal (allAliases rules)
                else Normal [YString s]
            | Some (YSeq l) =>
                if existsb isAll l
                then Normal (allAliases rules)
                else Normal l
            | _ => Throw (typeError "disabled_rules.includes is not a function")
            end
        end
      end
    end
  end.
End DisabledRules.

(** ** The metadata block store ([src/utils/yaml.ts], [src/utils/regex.ts]) *)

Module Yaml.

(** Modelled from the spec: the key names are constants of
    [src/utils/yaml.ts], which is not part of the sources; their values
    are the keys that the rule's tests read and write. *)
Definition OBSIDIAN_ALIAS_KEY_SINGULAR : string := "alias".
Definition OBSIDIAN_ALIAS_KEY_PLURAL : string := "aliases".
(** Modelled from the spec: the key spellings of the aliases section, in
    their priority order (4.2, key/alias resolution); the constant is not
    part of the sources. *)
Definition OBSIDIAN_ALIASES_KEYS : list string :=
  [OBSIDIAN_ALIAS_KEY_PLURAL; OBSIDIAN_ALIAS_KEY_SINGULAR].
Definition LINTER_ALIASES_HELPER_KEY : string := "linter-yaml-title-alias".

(** Modelled from the spec: the target styles of [formatValue] (4.2),
    under the names that the rule and its tests use. *)
Inductive ArrayFormat : Type :=
| MultiLine                  (* NormalArrayFormats.MultiLine *)
| SingleLine                 (* NormalArrayFormats.SingleLine *)
| SingleStringToSingleLine   (* SpecialArrayFormats.SingleStringToSingleLine *)
| SingleStringToMultiLine.   (* SpecialArrayFormats.SingleStringToMultiLine *)

(** The marker line that opens and closes the metadata block. *)
Definition marker : string := "---".

Fixpoint findIndex {A : Type} (p : A -> bool) (l : list A) : option nat :=
  match l with
  | [] => None
  | x :: l' => if p x then Some O else option_map S (findIndex p l')
  end.

(** Modelled from the spec: [text.match(yamlRegex)[1]] ([yamlRegex] is
    not part of the sources).  The metadata block is "the leading
    delimited block of a document (delimiters are a fixed marker line
    repeated at start and end)"; the result is the body between the two
    marker lines, every body line with its line feed, so that the document
    reads [---\n] + body + [---] (as [YamlTitleAlias.apply] relies on). *)
Definition matchYaml (text : string) : option string :=
  if startsWith (marker +:+ nl) text then
    let pieces := splitOn nlChar (dropChars 4 text) in
    match findIndex (String.eqb marker) pieces with
    | Some i => Some (unlines (firstn i pieces))
    | None => None
    end
  else None.

(** Modelled from the spec: [ensureBlockExists] (4.2): "if no metadata
    block delimiters are present at the very start, inserts an empty one;
    otherwise returns text unchanged". *)
Definition initYAML (text : string) : string :=
  match matchYaml text with
  | None => marker +:+ nl +:+ marker +:+ nl +:+ text
  | Some _ => text
  end.

(** A line that continues the value of the key above it: it begins with
    indentation. *)
Definition isContinuation (line : string) : bool :=
  match line with
  | String a _ => isBlank a
  | EmptyString => false
  end.

Fixpoint takeWhile {A : Type} (p : A -> bool) (l : list A) : list A :=
  match l with
  | x :: l' => if p x then x :: takeWhile p l' else []
  | [] => []
  end.

(** Modelled from the spec: the common part of [getSectionValue],
    [setSectionValue] and [removeSection] (4.2).  Where a section sits in
    a block body: the complete lines before its
    key line, the rest of the key line behind [key:], the continuation
    lines that make up a multi-line value (none when the key line carries
    a value), and the text behind the section. *)
Record Section_ : Type := mkSection {
  linesBefore : list string;
  keyLineRest : string;
  continuation : list string;
  textAfter : string
}.

Definition locateSection (yaml key : string) : option Section_ :=
  let pieces := splitOn nlChar yaml in
  let lines := List.removelast pieces in
  let tail := List.last pieces EmptyString in
  match findIndex (startsWith (key +:+ ":")) lines with
  | None => None
  | Some i =>
      let rest := dropChars (String.length key + 1) (List.nth i lines EmptyString) in
      let following := skipn (S i) lines in
      let cont := if String.eqb rest "" then takeWhile isContinuation following else [] in
      Some (mkSection (firstn i lines) rest cont
              (unlines (skipn (List.length cont) following) +:+ tail))
  end.

(** Modelled from the spec: [getSectionValue] (4.2): "locates a line
    [^key:] ...; if the remainder of that line is non-empty, returns it
    trimmed of a single leading space; if empty, collects all immediately
    following lines that begin with the block's list-item indentation ...
    and returns that multi-line substring verbatim (including markers);
    returns null if the key is absent".  The multi-line value starts at
    the line feed that ends the key line. *)
Definition getYamlSectionValue (yaml key : string) : option string :=
  match locateSection yaml key with
  | None => None
  | Some sec =>
      if String.eqb (keyLineRest sec) "" then
        Some (concatStrings (List.map (fun l => nl +:+ l) (continuation sec)))
      else
        Some (match keyLineRest sec with
              | String a r => if Ascii.eqb a " "%char then r else keyLineRest sec
              | EmptyString => EmptyString
              end)
  end.

(** Modelled from the spec: [setSectionValue] (4.2): "if the key exists,
    replaces exactly the span that getSectionValue would return ...
    leaving every other key's raw text byte-identical; if absent, appends
    a new entry at the end of the block".  The raw value carries its own
    separator (a space, or the line feed of a multi-line array), as the
    callers in the rules pass it. *)
Definition setYamlSection (yaml key rawValue : string) : string :=
  match locateSection yaml key with
  | None => yaml +:+ key +:+ ":" +:+ rawValue +:+ nl
  | Some sec =>
      unlines (linesBefore sec) +:+ key +:+ ":" +:+ rawValue +:+ nl +:+ textAfter sec
  end.

(** Modelled from the spec: [removeSection] (4.2): "deletes the key line
    and, if present, its multi-line continuation". *)
Definition removeYamlSection (yaml key : string) : string :=
  match locateSection yaml key with
  | None => yaml
  | Some sec => unlines (linesBefore sec) +:+ textAfter sec
  end.

(** The known escape characters: the single and the double quote. *)
Definition isQuote (c : ascii) : bool :=
  Ascii.eqb c "'"%char || Ascii.eqb c (ascii_of_nat 34).

(** Modelled from the spec: [isValueEscapedAlready] is not part of the
    sources; a value "already appears escaped" when its "outer characters
    match a known escape character" (4.2, [escapeIfNeeded]). *)
Definition isValueEscapedAlready (value : string) : bool :=
  match firstChar value, lastChar value with
  | Some a, Some b => (1 <? String.length value)%nat && isQuote a && Ascii.eqb a b
  | _, _ => false
  end.

(** Characters that start a YAML construct when they lead a plain value. *)
Definition leadingSpecial (value : string) : bool :=
  match value with
  | String a _ => existsb (Ascii.eqb a) (list_ascii_of_string "[]{},#&*!|>%@`")
  | EmptyString => false
  end.

(** Plain text that YAML reads as a boolean or as null. *)
Definition literalLike (value : string) : bool :=
  existsb (String.eqb value)
    ["true"; "True"; "TRUE"; "false"; "False"; "FALSE"; "null"; "Null"; "NULL"; "~"].

Definition wrap (q value : string) : string := q +:+ value +:+ q.

(** Modelled from the spec: [escapeIfNeeded] (4.2): "wraps the value in
    the given escape character if it contains characters that would
    otherwise be misinterpreted as structural (a leading special
    character, an internal [": "] sequence, boolean/null-like literal
    text) or if forceEscape is set and the value is not already escaped;
    if the value already appears escaped ... it is left unchanged".  A
    value that holds one kind of quote is wrapped in the other kind, and
    one that holds both cannot be escaped (the rule's tests "Titles with
    double quote are escaped" and "Titles with single quote are
    escaped"). *)
Definition escapeStringIfNecessaryAndPossible
    (value defaultEscapeCharacter : string) (forceEscape : bool) : string :=
  if isValueEscapedAlready value then value
  else
    let hasSingle := includes value "'" in
    let hasDouble := includes value dquote in
    if hasSingle && hasDouble then value
    else if hasSingle then wrap dquote value
    else if hasDouble then wrap "'" value
    else if includes value ": " || forceEscape || leadingSpecial value || literalLike value
    then wrap defaultEscapeCharacter value
    else value.

(** A raw alias value once parsed: one string or a list of strings. *)
Inductive AliasValue : Type :=
| AStr (s : string)
| AList (l : list string).

(** Splitting the inside of a bracketed array at the commas that are not
    inside quotes; [q] is the open quote, [cur] the item read so far (in
    reverse). *)
Fixpoint splitItems (q : option ascii) (cur : string) (s : string) : list string :=
  match s with
  | EmptyString => [reverse cur]
  | String a s' =>
      match q with
      | Some c =>
          splitItems (if Ascii.eqb a c then None else q) (String a cur) s'
      | None =>
          if Ascii.eqb a ","%char then reverse cur :: splitItems None EmptyString s'
          else splitItems (if isQuote a then Some a else None) (String a cur) s'
      end
  end.

Definition nonEmpty (s : string) : bool := negb (String.eqb s "").

(** The item of a block-sequence line: what follows the list marker. *)
Definition itemOfLine (line : string) : string :=
  match trim line with
  | String a r => if Ascii.eqb a "-"%char then trim r else trim line
  | EmptyString => EmptyString
  end.

(** Modelled from the spec: [toStringOrArray] (4.2) with [classifyValue]:
    an empty value is none, a bracketed value is the list of its
    comma-separated items, a value with a line break is the list of its
    list items.  Items keep their quotes (the rule's test "Make sure
    escaped aliases that match the H1 do not get added back"), and a
    single-line scalar comes back as the array of that one item: the
    rule's test "Does not add alias that matches the filename for single
    string style aliases section, removes previous alias" has the tracked
    alias found in it and spliced out. *)
Definition convertAliasValueToStringOrStringArray (raw : string) : option AliasValue :=
  let t := trim raw in
  if String.eqb t "" then None
  else if startsWith "[" t && (match lastChar t with Some c => Ascii.eqb c "]"%char | None => false end)
  then Some (AList (filter nonEmpty
         (List.map trim (splitItems None EmptyString
            (takeChars (String.length t - 2) (dropChars 1 t))))))
  else if includes raw nl
  then Some (AList (filter nonEmpty (List.map itemOfLine (splitOn nlChar raw))))
  else Some (AList [raw]).

(** Modelled from the spec: [formatValue] (4.2).  The result carries its
    separator from the key: a space, or the line feed in front of the
    first list item.  The single-string styles write one item as a plain
    scalar (the rule's tests "Creates single string alias when missing"). *)
Definition formatYamlArrayValue (value : AliasValue) (format : ArrayFormat) : string :=
  let items := match value with AStr s => [s] | AList l => l end in
  let single := " [" +:+ joinWith ", " items +:+ "]" in
  let multi := concatStrings (List.map (fun v => nl +:+ "  - " +:+ v) items) in
  match format, items with
  | SingleLine, _ => single
  | MultiLine, _ => multi
  | SingleStringToSingleLine, [v] => " " +:+ v
  | SingleStringToSingleLine, _ => single
  | SingleStringToMultiLine, [v] => " " +:+ v
  | SingleStringToMultiLine, _ => multi
  end.

(** Modelled from the spec: [loadYAML] is not part of the sources and the
    specification does not describe it; it wraps the js-yaml parser
    [load], which stays a parameter.  What the callers rely on is kept: a
    missing text loads as [null] ([previousTitle !== null] in [YamlTitleAlias.apply]
    tells the absent key), and an empty document loads as an object
    without keys ([Object.keys(parsedYaml)] in the same function). *)
Definition loadYAML (load : string -> Completion YamlValue JsError)
    (yaml_text : option string) : Completion YamlValue JsError :=
  match yaml_text with
  | None => Normal YNull
  | Some t =>
      match load t with
      | Normal YNull => Normal (YMap [])
      | r => r
      end
  end.

(** Modelled from the spec: [formatYAML] is not part of the sources; it
    hands the body of the leading metadata block to [func] and puts the
    result in its place, and returns a text without a block unchanged. *)
Definition formatYAML (text : string) (func : string -> string) : string :=
  match matchYaml text with
  | None => text
  | Some body =>
      marker +:+ nl +:+ func body +:+ dropChars (4 + String.length body) text
  end.

End Yaml.

Import Yaml.

(** Sequencing of calls that may throw. *)
Definition bind {A B E : Type} (c : Completion A E) (k : A -> Completion B E)
  : Completion B E :=
  match c with
  | Normal a => k a
  | Throw e => Throw e
  end.

Notation "'try' x <- c ; k" := (bind c (fun x => k))
  (at level 10, x name, c at level 100, k at level 200).

(** Modelled from the spec: the catalog of ignore kinds (4.1), under the
    names by which the rules refer to them ([IgnoreTypes] of
    [src/utils/ignore-types.ts], which is not part of the sources). *)
Module IgnoreTypes.
Inductive t : Type :=
| code | inlineCode | yaml | image | link | wikiLink | tag
| italics | bold | math | inlineMath.
End IgnoreTypes.

(** ** [YamlTitleAlias] *)

Module YamlTitleAlias.

Record YamlTitleAliasOptions : Type := mkOptions {
  preserveExistingAliasesSectionStyle : bool;
  keepAliasThatMatchesTheFilename : bool;
  useYamlKeyToKeepTrackOfOldFilenameOrHeading : bool;
  aliasArrayStyle : ArrayFormat;
  fileName : option string;
  defaultEscapeCharacter : string
}.

(** The field initialisers of [YamlTitleAliasOptions]. *)
Definition defaultOptions : YamlTitleAliasOptions :=
  mkOptions true false true MultiLine None dquote.

Definition optionEqb (a b : option string) : bool :=
  match a, b with
  | Some x, Some y => String.eqb x y
  | None, None => true
  | _, _ => false
  end.

(** [v === s] for a parsed value and a string. *)
Definition strictEqString (v : YamlValue) (s : string) : bool :=
  match v with
  | YString p => String.eqb p s
  | _ => false
  end.

(** [l.indexOf(x)]; [None] is [-1]. *)
Definition indexOfBy (p : string -> bool) (l : list string) : option nat :=
  findIndex p l.

(** [l.splice(i, 1)]. *)
Definition splice1 (i : nat) (l : list string) : list string :=
  (firstn i l ++ skipn (S i) l)%list.

(** [l[i] = x] for [i] inside the array. *)
Fixpoint setAt (i : nat) (x : string) (l : list string) : list string :=
  match i, l with
  | O, _ :: l' => x :: l'
  | S i', y :: l' => y :: setAt i' x l'
  | _, [] => []
  end.

(** The closure [getNewAliasValue].  The boolean of the result tells
    whether the returned value is the very array object that was passed
    in (updated in place by [splice] or by an indexed assignment), which
    is what [currentAliasValue == newAliasValue] observes on arrays. *)
Definition getNewAliasValue (title : string) (previousTitle : YamlValue)
    (originalValue : option AliasValue) (shouldRemoveTitle : bool)
  : AliasValue * bool :=
  match originalValue with
  | None => (if shouldRemoveTitle then AStr "" else AStr title, false)
  | Some original =>
      let updated : AliasValue * bool :=
        match original with
        | AStr s =>
            if shouldRemoveTitle then
              (if String.eqb s title then AStr "" else AStr s, false)
            else if strictEqString previousTitle s then (AStr title, false)
            else (AList [title; s], false)
        | AList l =>
            match previousTitle with
            | YNull =>
                match indexOfBy (fun x => String.eqb x title) l with
                | Some currentTitleIndex =>
                    if shouldRemoveTitle then (AList (splice1 currentTitleIndex l), true)
                    else (AList l, true)
                | None =>
                    if negb shouldRemoveTitle then (AList (title :: l), false)
                    else (AList l, true)
                end
            | _ =>
                match indexOfBy (strictEqString previousTitle) l with
                | Some previousTitleIndex =>
                    if shouldRemoveTitle then (AList (splice1 previousTitleIndex l), true)
                    else (AList (setAt previousTitleIndex title l), true)
                | None => (AList l, true)
                end
            end
        end in
      match fst updated with
      | AStr s => if String.eqb s "" then (AStr "", false) else updated
      | AList [] => (AStr "", false)
      | AList _ => updated
      end
  end.

(** [a == b] on alias values: strings by content, an array against a
    string through its [toString] (the items joined by commas), two
    arrays by identity. *)
Definition looseEq (a b : AliasValue) (sameObject : bool) : bool :=
  match a, b with
  | AStr x, AStr y => String.eqb x y
  | AStr x, AList l | AList l, AStr x => String.eqb x (joinWith "," l)
  | AList _, AList _ => sameObject
  end.

(** [Object.keys(parsedYaml)]: the keys of a mapping; the keys of any
    other value are array indices or none, never an aliases key. *)
Definition objectKeys (v : YamlValue) : list string :=
  match v with
  | YMap m => List.map fst m
  | _ => []
  end.

(** [/^\[.*\]/] on a value without line feed. *)
Definition looksBracketed (value : string) : bool :=
  startsWith "[" value && includes (dropChars 1 value) "]".

Section Apply.
(** The js-yaml parser. *)
Variable load : string -> Completion YamlValue JsError.
(** [ignoreListOfTypes] of [src/utils/ignore-types.ts] and
    [getFirstHeaderOneText] of [src/utils/regex.ts]. *)
Variable ignoreListOfTypes : list IgnoreTypes.t -> string -> (string -> string) -> string.
Variable getFirstHeaderOneText : string -> string.

Definition apply (text : string) (options : YamlTitleAliasOptions)
  : Completion string JsError :=
  let text := initYAML text in
  let title := ignoreListOfTypes [IgnoreTypes.code; IgnoreTypes.yaml; IgnoreTypes.tag] text
      getFirstHeaderOneText in
  let title := if String.eqb title "" then fileName options else Some title in
  match matchYaml text with
  | None => Throw (typeError "Cannot read properties of null")
  | Some yaml =>
    let shouldRemoveTitleAlias :=
      negb (keepAliasThatMatchesTheFilename options) && optionEqb title (fileName options) in
    try firstLoad <- (if useYamlKeyToKeepTrackOfOldFilenameOrHeading options
          then loadYAML load (getYamlSectionValue yaml LINTER_ALIASES_HELPER_KEY)
          else Normal YNull) ;
    let newYaml := replaceFirst (nl +:+ marker) "" (replaceFirst (marker +:+ nl) "" yaml) in
    try parsedYaml <- loadYAML load (Some yaml) ;
    try previousTitle <- loadYAML load (getYamlSectionValue yaml LINTER_ALIASES_HELPER_KEY) ;
    match title with
    | None => Throw (typeError "Cannot read properties of undefined")
    | Some title =>
      let title := escapeStringIfNecessaryAndPossible title (defaultEscapeCharacter options) false in
      let yamlKeys := objectKeys parsedYaml in
      let aliasKeyForFile :=
        find (fun aliasKey => existsb (String.eqb aliasKey) yamlKeys) OBSIDIAN_ALIASES_KEYS in
      try newYaml <-
        (match aliasKeyForFile with
        | Some aliasKeyForFile =>
          match getYamlSectionValue newYaml aliasKeyForFile with
          | None => Throw (typeError "Cannot read properties of null")
          | Some aliasesValue =>
            let isEmpty := String.eqb aliasesValue "" in
            let isSingleString :=
              negb (includes aliasesValue nl) && negb (looksBracketed aliasesValue) in
            let currentAliasStyle :=
              if includes aliasesValue nl then MultiLine
              else if looksBracketed aliasesValue then SingleLine
              else SingleStringToSingleLine in
            let currentAliasValue := convertAliasValueToStringOrStringArray aliasesValue in
            let '(newAliasValue, sameObject) :=
              getNewAliasValue title previousTitle currentAliasValue shouldRemoveTitleAlias in
            match newAliasValue with
            | AStr EmptyString => Normal (removeYamlSection newYaml aliasKeyForFile)
            | _ =>
              if preserveExistingAliasesSectionStyle options then
                if negb isEmpty &&
                   ((isSingleString && looseEq (AStr title) newAliasValue false)
                    || negb isSingleString
                    || match currentAliasValue with
                       | Some c => looseEq c newAliasValue sameObject
                       | None => false
                       end)
                then Normal (setYamlSection newYaml aliasKeyForFile
                               (formatYamlArrayValue newAliasValue currentAliasStyle))
                else Normal (setYamlSection newYaml aliasKeyForFile
                               (formatYamlArrayValue newAliasValue (aliasArrayStyle options)))
              else Normal (setYamlSection newYaml aliasKeyForFile
                             (formatYamlArrayValue newAliasValue (aliasArrayStyle options)))
            end
          end
        | None =>
          if negb shouldRemoveTitleAlias
          then Normal (setYamlSection newYaml OBSIDIAN_ALIAS_KEY_PLURAL
                         (formatYamlArrayValue (AStr title) (aliasArrayStyle options)))
          else Normal newYaml
        end) ;
      let newYaml :=
        if negb (useYamlKeyToKeepTrackOfOldFilenameOrHeading options) || shouldRemoveTitleAlias
        then removeYamlSection newYaml LINTER_ALIASES_HELPER_KEY
        else setYamlSection newYaml LINTER_ALIASES_HELPER_KEY (" " +:+ title) in
      Normal (replaceFirst (marker +:+ nl +:+ yaml +:+ marker +:+ nl)
                (marker +:+ nl +:+ newYaml +:+ marker +:+ nl) text)
    end
  end.
End Apply.

End YamlTitleAlias.

(** ** A parser for the examples

    The js-yaml parser is outside the sources; the rules above take it as
    a parameter.  [miniLoad] reads the subset of YAML that the examples
    below use (a flat mapping whose values are empty, plain or quoted
    scalars, bracketed arrays or block sequences; or one scalar) and
    stands in for it there. *)

Module MiniYaml.

Definition isDigit (c : ascii) : bool :=
  let n := nat_of_ascii c in (48 <=? n)%nat && (n <=? 57)%nat.

Fixpoint allDigits (s : string) : bool :=
  match s with
  | EmptyString => true
  | String a s' => isDigit a && allDigits s'
  end.

Fixpoint digitsValue (acc : Z) (s : string) : Z :=
  match s with
  | EmptyString => acc
  | String a s' => digitsValue (10 * acc + Z.of_nat (nat_of_ascii a - 48)) s'
  end.

Definition parseAtom (raw : string) : YamlValue :=
  let t := trim raw in
  if String.eqb t "" || String.eqb t "null" || String.eqb t "~" then YNull
  else if String.eqb t "true" then YBool true
  else if String.eqb t "false" then YBool false
  else if isValueEscapedAlready t then YString (takeChars (String.length t - 2) (dropChars 1 t))
  else if allDigits t then YNumber (digitsValue 0 t)
  else YString t.

Definition parseValue (raw : string) : YamlValue :=
  let t := trim raw in
  if includes raw nl then
    YSeq (List.map parseAtom (filter nonEmpty (List.map itemOfLine (splitOn nlChar raw))))
  else if startsWith "[" t && (match lastChar t with Some c => Ascii.eqb c "]"%char | None => false end)
  then YSeq (List.map parseAtom (filter nonEmpty (List.map trim
         (splitItems None EmptyString (takeChars (String.length t - 2) (dropChars 1 t))))))
  else parseAtom t.

(** The key of a top-level [key: value] or [key:] line. *)
Definition keyOfLine (line : string) : option string :=
  if isContinuation line then None
  else match indexOfStr ": " line with
       | Some i => Some (takeChars i line)
       | None =>
           match lastChar line with
           | Some c => if Ascii.eqb c ":"%char
                       then Some (takeChars (String.length line - 1) line) else None
           | None => None
           end
       end.

Fixpoint collectKeys (lines : list string) : list string :=
  match lines with
  | [] => []
  | l :: lines' =>
      match keyOfLine l with
      | Some k => k :: collectKeys lines'
      | None => collectKeys lines'
      end
  end.

Definition miniLoad (text : string) : Completion YamlValue JsError :=
  (* blank lines carry nothing; every other line gets its line feed *)
  let doc := unlines (List.filter nonEmpty (splitOn nlChar text)) in
  match collectKeys (splitOn nlChar doc) with
  | [] => Normal (parseAtom text)
  | keys =>
      Normal (YMap (List.map (fun k =>
                (k, match getYamlSectionValue doc k with
                    | Some v => parseValue v
                    | None => YNull
                    end)) keys))
  end.

(** An instance of [getFirstHeaderOneText] for the examples: what follows
    [# ] on the first line that starts so; empty when there is none. *)
Definition firstHeaderOneText (text : string) : string :=
  match find (startsWith "# ") (splitOn nlChar text) with
  | Some l => trim (dropChars 2 l)
  | None => EmptyString
  end.

(** An instance of [ignoreListOfTypes] for the examples, for texts in
    which only the leading metadata block is protected: the block is
    replaced by a placeholder before [func] runs and put back afterwards. *)
Definition ignoreYamlOnly (kinds : list IgnoreTypes.t) (text : string)
    (func : string -> string) : string :=
  match matchYaml text with
  | Some body =>
      let block := takeChars (4 + String.length body + 3) text in
      let rest := dropChars (4 + String.length body + 3) text in
      replaceFirst "{YAML}" block (func ("{YAML}" +:+ rest))
  | None => func text
  end.

End MiniYaml.

(** ** [ForceYamlEscape] *)

Module ForceYamlEscape.

Record ForceYamlEscapeOptions : Type := mkOptions {
  defaultEscapeCharacter : string;
  forceYamlEscape : list string
}.

Definition defaultOptions : ForceYamlEscapeOptions := mkOptions dquote [].

(** One turn of the loop over [options.forceYamlEscape]. *)
Definition escapeKey (options : ForceYamlEscapeOptions) (text yamlKeyToEscape : string)
  : string :=
  match getYamlSectionValue text yamlKeyToEscape with
  | Some keyValue =>
      (* skip yaml array values or already escaped values *)
      if includes keyValue nl || startsWith " [" keyValue || isValueEscapedAlready keyValue
      then text
      else
        let keyValue :=
          escapeStringIfNecessaryAndPossible keyValue (defaultEscapeCharacter options) true in
        setYamlSection text yamlKeyToEscape (" " +:+ keyValue)
  | None => text
  end.

Definition apply (text : string) (options : ForceYamlEscapeOptions) : string :=
  formatYAML text (fun text => fold_left (escapeKey options) (forceYamlEscape options) text).

End ForceYamlEscape.

(** Sample registry and documents. *)
Definition titleAliasRule : Rule :=
  newRule "YAML Title Alias" "Inserts the title of the file into the aliases" YAML noop [] false.

Definition sampleRules : list Rule := [titleAliasRule; demoRule].

Definition sampleParser (text : string) : Completion YamlValue JsError :=
  loadYAML MiniYaml.miniLoad (Some text).

Definition docDisabledArray : string := "---
disabled rules: [yaml-title-alias, all]
---
text".

Definition docArrayValue : string := "---
key: [a, b]
title: This is a title
---
".

(** ** Regular expressions over code points

    The two expressions of the CJK spacing rule carry the flags [gmu]:
    they read the text code point by code point and replace every match,
    scanning from left to right.  [matchK] is the backtracking matcher of
    the language: alternatives are tried in order, [*] is greedy and an
    iteration must consume input. *)

Module Regex.

Definition text : Type := list N.

Inductive Regex : Type :=
| Eps
| Chr (p : N -> bool)
| Seq (a b : Regex)
| Alt (a b : Regex)
| Star (a : Regex).

Definition Plus (a : Regex) : Regex := Seq a (Star a).

Fixpoint matchK {R : Type} (r : Regex) (s : text) (k : text -> option R) {struct r}
  : option R :=
  match r with
  | Eps => k s
  | Chr p =>
      match s with
      | c :: s' => if p c then k s' else None
      | [] => None
      end
  | Seq a b => matchK a s (fun s' => matchK b s' k)
  | Alt a b =>
      match matchK a s k with
      | Some x => Some x
      | None => matchK b s k
      end
  | Star a =>
      (fix loop (n : nat) (s : text) {struct n} : option R :=
         match n with
         | O => k s
         | S n' =>
             match matchK a s (fun s' =>
                     if (List.length s' <? List.length s)%nat then loop n' s' else None) with
             | Some x => Some x
             | None => k s
             end
         end) (List.length s) s
  end.

(** [text.replace(re, ...)] with the flag [g]: [matchAt s] is the match
    that starts at the head of [s], as its replacement and the text behind
    the match.  The scan resumes behind a match and moves on by one code
    point where there is none (or where the match is empty). *)
Fixpoint replaceAll (matchAt : text -> option (text * text)) (fuel : nat) (s : text)
  : text :=
  match fuel with
  | O => s
  | S fuel' =>
      match matchAt s with
      | Some (replacement, rest) =>
          if (List.length rest <? List.length s)%nat
          then (replacement ++ replaceAll matchAt fuel' rest)%list
          else match s with
               | c :: s' => (replacement ++ c :: replaceAll matchAt fuel' s')%list
               | [] => replacement
               end
      | None =>
          match s with
          | c :: s' => c :: replaceAll matchAt fuel' s'
          | [] => []
          end
      end
  end.

(** The part of [s] in front of its suffix [rest]. *)
Definition consumed (s rest : text) : text :=
  firstn (List.length s - List.length rest) s.

Definition codes (s : string) : list N := List.map N_of_ascii (list_ascii_of_string s).

Definition oneOf (l : list N) : N -> bool := fun c => existsb (N.eqb c) l.
Definition noneOf (l : list N) : N -> bool := fun c => negb (existsb (N.eqb c) l).

Definition lit (s : string) : N -> bool := oneOf (codes s).

(** [.] without the flag [s]: anything but a line terminator. *)
Definition dot : N -> bool := noneOf [10; 13; 8232; 8233]%N.

(** [\w]. *)
Definition word : N -> bool := fun c =>
  ((48 <=? c) && (c <=? 57) || (65 <=? c) && (c <=? 90)
   || (97 <=? c) && (c <=? 122) || (c =? 95))%N.

Definition space : N -> bool := fun c => (c =? 32)%N.

End Regex.

(** ** [SpaceBetweenChineseJapaneseOrKoreanAndEnglishOrNumbers] *)

Module CjkSpacing.
Import Regex.

Inductive Script : Type := Han | Katakana | Hiragana | Hangul.

(** The kinds that the rule hands to [ignoreListOfTypes]. *)
Definition ignoredKinds : list IgnoreTypes.t :=
  [IgnoreTypes.code; IgnoreTypes.inlineCode; IgnoreTypes.yaml; IgnoreTypes.image;
   IgnoreTypes.link; IgnoreTypes.wikiLink; IgnoreTypes.tag; IgnoreTypes.italics;
   IgnoreTypes.bold; IgnoreTypes.math; IgnoreTypes.inlineMath].

Section Rule.
(** [\p{sc=...}]: the script of a code point, from the Unicode character
    database of the host. *)
Variable inScript : Script -> N -> bool.
Variable ignoreListOfTypes : list IgnoreTypes.t -> text -> (text -> text) -> text.
Variable updateItalicsText : text -> (text -> text) -> text.
Variable updateBoldText : text -> (text -> text) -> text.

(** [(\p{sc=Han}|\p{sc=Katakana}|\p{sc=Hiragana}|\p{sc=Hangul})]. *)
Definition cjk : N -> bool := fun c =>
  inScript Han c || inScript Katakana c || inScript Hiragana c || inScript Hangul c.

(** A markdown link: an opening bracket, anything but opening brackets,
    a closing bracket, and a parenthesised rest of any characters of the
    line. *)
Definition markdownLink : Regex :=
  Seq (Chr (lit "[")) (Seq (Star (Chr (noneOf (codes "["))))
    (Seq (Chr (lit "]")) (Seq (Chr (lit "(")) (Seq (Star (Chr dot)) (Chr (lit ")")))))).

(** An inline code span: a backtick, anything but backticks, a backtick. *)
Definition inlineCodeSpan : Regex :=
  Seq (Chr (lit "`")) (Seq (Star (Chr (noneOf (codes "`")))) (Chr (lit "`"))).

(** Third group of [head]: a markdown link, an inline code span, a run
    of word characters, one of the characters minus, plus, apostrophe,
    double quote, opening parenthesis, bracket or brace, yen sign (165) or
    dollar, or an asterisk followed by anything but an asterisk. *)
Definition headRight : Regex :=
  Alt markdownLink
    (Alt inlineCodeSpan
       (Alt (Plus (Chr word))
          (Alt (Chr (oneOf (codes "-+'([{$" ++ [34; 165]%N)))
               (Seq (Chr (lit "*")) (Chr (noneOf (codes "*"))))))).

(** First group of [tail]: a markdown link, an inline code span, a run
    of word characters, one of the characters minus, plus, semicolon,
    colon, apostrophe, double quote, degree sign (176), percent, dollar,
    closing parenthesis, bracket or brace, or an asterisk behind anything
    but an asterisk. *)
Definition tailLeft : Regex :=
  Alt markdownLink
    (Alt inlineCodeSpan
       (Alt (Plus (Chr word))
          (Alt (Chr (oneOf (codes "-+;:'%$)]}" ++ [34; 176]%N)))
               (Seq (Chr (noneOf (codes "*"))) (Chr (lit "*")))))).

(** [head] at the front of [s], replaced by [$1 $3]. *)
Definition headAt (s : text) : option (text * text) :=
  match s with
  | c :: s1 =>
      if cjk c then
        matchK (Star (Chr space)) s1 (fun s2 =>
          matchK headRight s2 (fun s3 =>
            Some (c :: 32%N :: consumed s2 s3, s3)))
      else None
  | [] => None
  end.

(** [tail] at the front of [s], replaced by [$1 $3]. *)
Definition tailAt (s : text) : option (text * text) :=
  matchK tailLeft s (fun s1 =>
    matchK (Star (Chr space)) s1 (fun s2 =>
      match s2 with
      | c :: s3 => if cjk c then Some ((consumed s s1 ++ [32%N; c])%list, s3) else None
      | [] => None
      end)).

(** [text.replace(head, '$1 $3').replace(tail, '$1 $3')]. *)
Definition addSpaceAroundChineseJapaneseKoreanAndEnglish (s : text) : text :=
  let s := replaceAll headAt (S (List.length s)) s in
  replaceAll tailAt (S (List.length s)) s.

Definition apply (s : text) : text :=
  let newText :=
    ignoreListOfTypes ignoredKinds s addSpaceAroundChineseJapaneseKoreanAndEnglish in
  let newText := updateItalicsText newText addSpaceAroundChineseJapaneseKoreanAndEnglish in
  let newText := updateBoldText newText addSpaceAroundChineseJapaneseKoreanAndEnglish in
  newText.
End Rule.

(** The blocks of the four scripts that the examples draw on. *)
Definition between (lo hi c : N) : bool := ((lo <=? c) && (c <=? hi))%N.

Definition sampleScripts (sc : Script) (c : N) : bool :=
  match sc with
  | Han => between 0x4E00 0x9FFF c || between 0x3400 0x4DBF c
  | Hiragana => between 0x3041 0x3096 c
  | Katakana => between 0x30A1 0x30FA c || between 0xFF66 0xFF9D c
  | Hangul => between 0xAC00 0xD7A3 c
  end.

(** [U+4E2D] (the Han character "middle"), [*], [U+4E2D], [a]. *)
Definition sampleText : text := [0x4E2D; 42; 0x4E2D; 97]%N.
(** The same with a space on each side of the asterisk. *)
Definition sampleOnce : text := [0x4E2D; 32; 42; 32; 0x4E2D; 97]%N.
(** And with one more space in front of [a]. *)
Definition sampleTwice : text := [0x4E2D; 32; 42; 32; 0x4E2D; 32; 97]%N.

End CjkSpacing.

(** ** The region masker ([src/utils/ignore-types.ts]) *)

Module Masker.

Definition kindEqb (a b : IgnoreTypes.t) : bool :=
  match a, b with
  | IgnoreTypes.code, IgnoreTypes.code
  | IgnoreTypes.inlineCode, IgnoreTypes.inlineCode
  | IgnoreTypes.yaml, IgnoreTypes.yaml
  | IgnoreTypes.image, IgnoreTypes.image
  | IgnoreTypes.link, IgnoreTypes.link
  | IgnoreTypes.wikiLink, IgnoreTypes.wikiLink
  | IgnoreTypes.tag, IgnoreTypes.tag
  | IgnoreTypes.italics, IgnoreTypes.italics
  | IgnoreTypes.bold, IgnoreTypes.bold
  | IgnoreTypes.math, IgnoreTypes.math
  | IgnoreTypes.inlineMath, IgnoreTypes.inlineMath => true
  | _, _ => false
  end.

Fixpoint isPrefix {A : Type} (eqb : A -> A -> bool) (p s : list A) : bool :=
  match p, s with
  | [], _ => true
  | a :: p', b :: s' => eqb a b && isPrefix eqb p' s'
  | _ :: _, [] => false
  end.


Section Masker.
Context {A : Type}.
(** Equality of characters. *)
Variable eqb : A -> A -> bool.
(** The placeholder of each kind: a text "unlikely to collide with real
    content" (4.1). *)
Variable placeholderText : IgnoreTypes.t -> list A.
(** The recognizers of the catalog: for a kind and a text, the spans
    [(start, end)] of that kind. *)
Variable recognize : IgnoreTypes.t -> list A -> list (nat * nat).

(** A text read as characters and occurrences of placeholders. *)
Inductive Token : Type :=
| Ch (a : A)
| Ph (k : IgnoreTypes.t).

(** Modelled from the spec: a masked region is "a (start offset, end
    offset, original text, placeholder text) tuple" (section 3); the
    placeholder is given by its kind. *)
Record MaskedRegion : Type := mkRegion {
  regionStart : nat;
  regionEnd : nat;
  original : list A;
  placeholder : IgnoreTypes.t
}.

Definition overlaps (s e : nat) (r : nat * nat * IgnoreTypes.t) : bool :=
  let '(s', e', _) := r in (s <? e')%nat && (s' <? e)%nat.

(** The spans of one kind join the accepted ones unless they are empty,
    leave the text or touch a span accepted before: first match wins. *)
Fixpoint acceptSpans (len : nat) (k : IgnoreTypes.t) (spans : list (nat * nat))
    (accepted : list (nat * nat * IgnoreTypes.t)) : list (nat * nat * IgnoreTypes.t) :=
  match spans with
  | [] => accepted
  | (s, e) :: spans' =>
      if (s <? e)%nat && (e <=? len)%nat && negb (existsb (overlaps s e) accepted)
      then acceptSpans len k spans' (accepted ++ [(s, e, k)])
      else acceptSpans len k spans' accepted
  end.

Fixpoint collect (text : list A) (kinds : list IgnoreTypes.t)
    (accepted : list (nat * nat * IgnoreTypes.t)) : list (nat * nat * IgnoreTypes.t) :=
  match kinds with
  | [] => accepted
  | k :: kinds' => collect text kinds' (acceptSpans (List.length text) k (recognize k text) accepted)
  end.

(** The accepted spans in text order. *)
Definition byStart (a b : nat * nat * IgnoreTypes.t) : Z :=
  Z.of_nat (fst (fst a)) - Z.of_nat (fst (fst b)).

(** Cutting the spans out of the text, [pos] being the offset of the head
    of [rest]. *)
Fixpoint cut (pos : nat) (spans : list (nat * nat * IgnoreTypes.t)) (rest : list A)
  : list Token * list MaskedRegion :=
  match spans with
  | [] => (List.map Ch rest, [])
  | (s, e, k) :: spans' =>
      if (pos <=? s)%nat && (s <? e)%nat && (e - pos <=? List.length rest)%nat then
        let before := firstn (s - pos) rest in
        let inside := firstn (e - s) (skipn (s - pos) rest) in
        let '(m, regions) := cut e spans' (skipn (e - pos) rest) in
        ((List.map Ch before ++ Ph k :: m)%list, mkRegion s e inside k :: regions)
      else cut pos spans' rest
  end.

(** The text with the accepted spans cut out, as tokens, and the regions. *)
Definition maskTokens (text : list A) (kinds : list IgnoreTypes.t)
  : list Token * list MaskedRegion :=
  cut 0 (sort byStart (collect text kinds [])) text.

(** Tokens written out: a placeholder token as the placeholder text of
    its kind. *)
Fixpoint render (m : list Token) : list A :=
  match m with
  | [] => []
  | Ch a :: m' => a :: render m'
  | Ph k :: m' => (placeholderText k ++ render m')%list
  end.

(** Reading a text from left to right for the placeholders of the given
    kinds; [skip] characters belong to the placeholder just read. *)
Fixpoint scanFrom (kinds : list IgnoreTypes.t) (skip : nat) (t : list A) : list Token :=
  match t with
  | [] => []
  | c :: t' =>
      match skip with
      | S n => scanFrom kinds n t'
      | O =>
          match find (fun k => match placeholderText k with
                               | [] => false
                               | _ :: _ => isPrefix eqb (placeholderText k) t
                               end) kinds with
          | Some k => Ph k :: scanFrom kinds (List.length (placeholderText k) - 1) t'
          | None => Ch c :: scanFrom kinds 0 t'
          end
      end
  end.

Definition scan (kinds : list IgnoreTypes.t) (t : list A) : list Token :=
  scanFrom kinds 0 t.

(** Modelled from the spec: [mask(text, orderedIgnoreKinds) ->
    maskedText, restoreList] (4.1): "each matched span is replaced with a
    placeholder". *)
Definition mask (text : list A) (kinds : list IgnoreTypes.t)
  : list A * list MaskedRegion :=
  let '(m, regions) := maskTokens text kinds in (render m, regions).

(** The first region of a kind, and the regions without it. *)
Fixpoint takeRegion (k : IgnoreTypes.t) (regions : list MaskedRegion)
  : option (MaskedRegion * list MaskedRegion) :=
  match regions with
  | [] => None
  | r :: regions' =>
      if kindEqb (placeholder r) k then Some (r, regions')
      else match takeRegion k regions' with
           | Some (r', rest) => Some (r', r :: rest)
           | None => None
           end
  end.

(** Every placeholder token gives way to the original of the next region
    of its kind; a placeholder without a region stays. *)
Fixpoint unmaskTokens (masked : list Token) (regions : list MaskedRegion) : list Token :=
  match masked with
  | [] => []
  | Ch a :: masked' => Ch a :: unmaskTokens masked' regions
  | Ph k :: masked' =>
      match takeRegion k regions with
      | Some (r, regions') => (List.map Ch (original r) ++ unmaskTokens masked' regions')%list
      | None => Ph k :: unmaskTokens masked' regions
      end
  end.

(** Modelled from the spec: [unmask(maskedText, restoreList) -> text]
    (4.1).  The placeholders are looked up in the text that comes back
    from the rewrite ("re-deriving placeholder positions from content",
    section 7), in one pass, so that restored text is not read again. *)
Definition unmask (masked : list A) (regions : list MaskedRegion) : list A :=
  render (unmaskTokens (scan (List.map placeholder regions) masked) regions).

(** Modelled from the spec: the caller "can run an arbitrary rewrite over
    the masked text and then restore originals verbatim" (4.1). *)
Definition ignoreListOfTypes (kinds : list IgnoreTypes.t) (text : list A)
    (func : list A -> list A) : list A :=
  let '(masked, regions) := mask text kinds in
  unmask (func masked) regions.




End Masker.

Arguments Token A : clear implicits.
Arguments MaskedRegion A : clear implicits.







End Masker.

(** ** Further notions used by the properties below *)

(** The characters [alias()] never leaves in a name: the space and the
    upper-case ASCII letters. *)
Definition isUpper (c : ascii) : bool :=
  let n := nat_of_ascii c in (65 <=? n)%nat && (n <=? 90)%nat.

Fixpoint allChars (p : ascii -> bool) (s : string) : bool :=
  match s with
  | EmptyString => true
  | String c s' => p c && allChars p s'
  end.

Definition aliasChar (c : ascii) : bool :=
  negb (Ascii.eqb c " "%char) && negb (isUpper c).

(** The registrations at start-up, one [registerRule] call after the
    other; a call that throws ends the sequence. *)
Definition registerAll (localeCompare : string -> string -> Z)
    (toRegister : list Rule) (reg : Registry) : Completion Registry LinterError :=
  fold_left (fun acc rule => try reg <- acc ; registerRule localeCompare reg rule)
    toRegister (Normal reg).

(** The alias map and the ordered sequence agree: an entry of the map is
    a rule of the sequence, filed under its own alias, and every rule of
    the sequence has an entry under its alias. *)
Definition consistent (reg : Registry) : Prop :=
  (forall a r, rulesDict reg !! a = Some r -> In r (rules reg) /\ alias r = a) /\
  (forall r, In r (rules reg) -> is_Some (rulesDict reg !! alias r)).

(** An alias value names a title: it is that string, or an array that
    holds it. *)
Definition namesTitle (title : string) (v : AliasValue) : Prop :=
  match v with
  | AStr s => s = title
  | AList l => In title l
  end.

(** The texts a regular expression matches. *)
Inductive Matches : Regex.Regex -> Regex.text -> Prop :=
| MatchesEps : Matches Regex.Eps []
| MatchesChr (p : N -> bool) (c : N) : p c = true -> Matches (Regex.Chr p) [c]
| MatchesSeq (a b : Regex.Regex) (u v : Regex.text) :
    Matches a u -> Matches b v -> Matches (Regex.Seq a b) (u ++ v)%list
| MatchesAltL (a b : Regex.Regex) (u : Regex.text) :
    Matches a u -> Matches (Regex.Alt a b) u
| MatchesAltR (a b : Regex.Regex) (u : Regex.text) :
    Matches b u -> Matches (Regex.Alt a b) u
| MatchesStarNil (a : Regex.Regex) : Matches (Regex.Star a) []
| MatchesStarCons (a : Regex.Regex) (u v : Regex.text) :
    Matches a u -> Matches (Regex.Star a) v -> Matches (Regex.Star a) (u ++ v)%list.

(** A text without its spaces (U+0020). *)
Definition withoutSpaces (s : Regex.text) : Regex.text :=
  List.filter (fun c => negb (Regex.space c)) s.

(** A registry that holds the demo rule under its alias. *)
Definition demoRegistry : Registry :=
  mkRegistry [demoRule] (<["demo-rule" := demoRule]> ∅).

(** * Properties *)

(** ** String primitives *)

Lemma includes_startsWith (s sub : string) :
  startsWith sub s = true -> includes s sub = true.
Proof. intros H. destruct s; simpl; now rewrite H. Qed.

Lemma append_cons (a : ascii) (s t : string) :
  String a s +:+ t = String a (s +:+ t).
Proof. reflexivity. Qed.

Lemma append_empty_l (t : string) : "" +:+ t = t.
Proof. reflexivity. Qed.

Lemma startsWith_append (p s : string) : startsWith p (p +:+ s) = true.
Proof.
  induction p as [|a p IH]; [reflexivity|].
  rewrite append_cons. simpl. now rewrite Ascii.eqb_refl.
Qed.

Lemma includes_append (pre sub post : string) :
  includes (pre +:+ sub +:+ post) sub = true.
Proof.
  induction pre as [|a pre IH].
  - rewrite append_empty_l. apply includes_startsWith, startsWith_append.
  - rewrite append_cons. simpl. rewrite IH.
    now destruct (startsWith sub (String a (pre +:+ sub +:+ post))).
Qed.

(** ** Registry *)

(** C8. [wrapLintError] never returns normally: for every error and rule
    name it throws one [LinterError] whose message contains the rule name
    and whose cause is the error it was given. *)
Theorem wrapLintError_throws (e : JsError) (n : string) :
  exists msg, wrapLintError e n = Throw (mkLinterError msg e)
              /\ includes msg n = true.
Proof.
  unfold wrapLintError. eexists. split; [reflexivity|].
  apply (includes_append dquote n).
Qed.

(** *** The stable insertion sort *)

Section SortFacts.
Context {A : Type} (cmp : A -> A -> Z).
Hypothesis cmp_total : forall a b, 0 <= cmp a b -> cmp b a <= 0.
Hypothesis cmp_trans : forall a b c, cmp a b <= 0 -> cmp b c <= 0 -> cmp a c <= 0.

Let R (a b : A) : Prop := cmp a b <= 0.

Lemma insertSorted_Forall (P : A -> Prop) x l :
  P x -> Forall P l -> Forall P (insertSorted cmp x l).
Proof.
  intros Hx Hl. induction Hl as [|y l Hy Hl IH]; simpl.
  - repeat constructor; assumption.
  - destruct (cmp x y <? 0); repeat constructor; assumption.
Qed.

Lemma insertSorted_sorted x l :
  StronglySorted R l -> StronglySorted R (insertSorted cmp x l).
Proof.
  induction 1 as [|y l Hs IH Hy]; simpl.
  - repeat constructor.
  - destruct (Z.ltb_spec (cmp x y) 0) as [Hlt|Hge].
    + constructor; [constructor; assumption|].
      constructor; [unfold R; lia|].
      eapply Forall_impl; [exact Hy|].
      intros z Hz. apply cmp_trans with y; unfold R in *; lia.
    + constructor; [exact IH|].
      apply insertSorted_Forall; [|exact Hy].
      apply cmp_total. lia.
Qed.

Lemma sort_sorted l : StronglySorted R (sort cmp l).
Proof.
  unfold sort.
  assert (G : forall acc, StronglySorted R acc ->
              StronglySorted R (fold_left (fun acc x => insertSorted cmp x acc) l acc)).
  { induction l as [|x l IH]; intros acc Hacc; simpl; [exact Hacc|].
    apply IH, insertSorted_sorted, Hacc. }
  apply G. constructor.
Qed.
End SortFacts.

Lemma insertSorted_perm {A : Type} (cmp : A -> A -> Z) x l :
  Permutation (insertSorted cmp x l) (x :: l).
Proof.
  induction l as [|y l IH]; simpl; [reflexivity|].
  destruct (cmp x y <? 0); [reflexivity|].
  rewrite IH. apply perm_swap.
Qed.

Lemma sort_perm {A : Type} (cmp : A -> A -> Z) l : Permutation (sort cmp l) l.
Proof.
  unfold sort.
  assert (G : forall acc,
             Permutation (fold_left (fun acc x => insertSorted cmp x acc) l acc) (acc ++ l)%list).
  { induction l as [|x l IH]; intros acc; simpl.
    - now rewrite app_nil_r.
    - rewrite IH, insertSorted_perm. apply Permutation_middle. }
  apply (G []).
Qed.

Lemma StronglySorted_lookup {A : Type} (R : A -> A -> Prop) (l : list A) :
  StronglySorted R l ->
  forall (i j : nat) a b, (i < j)%nat -> l !! i = Some a -> l !! j = Some b -> R a b.
Proof.
  induction 1 as [|x l Hs IH Hx]; intros i j a b Hij Hi Hj.
  - discriminate.
  - destruct j as [|j]; [lia|]. simpl in Hj.
    destruct i as [|i]; simpl in Hi.
    + injection Hi as <-.
      rewrite Forall_forall in Hx. apply Hx.
      eapply list_elem_of_lookup_2; eassumption.
    + apply (IH i j); [lia|assumption..].
Qed.

(** *** The comparator of [registerRule] *)

Lemma typeIndex_inj (a b : Rule) : typeIndex a = typeIndex b -> type a = type b.
Proof.
  unfold typeIndex.
  destruct (type a), (type b); intros H; vm_compute in H; congruence.
Qed.

Lemma compareRules_le (lc : string -> string -> Z) (a b : Rule) :
  compareRules lc a b <= 0 <->
  typeIndex a < typeIndex b \/ (typeIndex a = typeIndex b /\ lc (name a) (name b) <= 0).
Proof.
  unfold compareRules. fold (typeIndex a) (typeIndex b).
  destruct (Z.eqb_spec (typeIndex a - typeIndex b) 0); lia.
Qed.

Section RegistryOrder.
Variable localeCompare : string -> string -> Z.
Hypothesis localeCompare_total :
  forall a b, 0 <= localeCompare a b -> localeCompare b a <= 0.
Hypothesis localeCompare_trans :
  forall a b c, localeCompare a b <= 0 -> localeCompare b c <= 0 -> localeCompare a c <= 0.

Lemma compareRules_total (a b : Rule) :
  0 <= compareRules localeCompare a b -> compareRules localeCompare b a <= 0.
Proof.
  intros H. apply compareRules_le.
  unfold compareRules in H. fold (typeIndex a) (typeIndex b) in H.
  destruct (Z.eqb_spec (typeIndex a - typeIndex b) 0) as [E|E].
  - right. split; [lia|]. now apply localeCompare_total.
  - left. lia.
Qed.

Lemma compareRules_trans (a b c : Rule) :
  compareRules localeCompare a b <= 0 -> compareRules localeCompare b c <= 0 ->
  compareRules localeCompare a c <= 0.
Proof.
  rewrite !compareRules_le.
  intros [Hab|[Hab Hn1]] [Hbc|[Hbc Hn2]]; try (left; lia).
  right. split; [lia|]. eapply localeCompare_trans; eassumption.
Qed.

(** C7. After every call to [registerRule] the ordered rule sequence is
    sorted by (category index, name): of two rules at positions [i < j]
    either the first one's category comes strictly earlier in the fixed
    order, or the categories are equal and the first name precedes or
    equals the second under the name comparison. *)
Theorem registerRule_sorted (reg : Registry) (rule : Rule) :
  exists reg',
    registerRule localeCompare reg rule = Normal reg' /\
    forall (i j : nat) (a b : Rule),
      (i < j)%nat -> rules reg' !! i = Some a -> rules reg' !! j = Some b ->
      typeIndex a < typeIndex b \/
      (type a = type b /\ localeCompare (name a) (name b) <= 0).
Proof.
  eexists. split; [reflexivity|]. simpl. intros i j a b Hij Hi Hj.
  assert (H : compareRules localeCompare a b <= 0).
  { eapply (StronglySorted_lookup (fun x y => compareRules localeCompare x y <= 0));
      [|exact Hij|exact Hi|exact Hj].
    apply sort_sorted; [apply compareRules_total|apply compareRules_trans]. }
  apply compareRules_le in H. destruct H as [H|[H1 H2]]; [now left|].
  right. split; [now apply typeIndex_inj|exact H2].
Qed.
End RegistryOrder.

(** *** Code-unit order *)

Lemma ascii_compare_N (a b : ascii) :
  Ascii.compare a b = N.compare (N_of_ascii a) (N_of_ascii b).
Proof. reflexivity. Qed.

Lemma string_compare_le_trans (a b c : string) :
  String.compare a b <> Gt -> String.compare b c <> Gt -> String.compare a c <> Gt.
Proof.
  revert b c. induction a as [|x a IH]; intros [|y b] [|z c]; simpl; try congruence.
  rewrite !ascii_compare_N.
  destruct (N.compare_spec (N_of_ascii x) (N_of_ascii y)) as [E1|E1|E1];
    destruct (N.compare_spec (N_of_ascii y) (N_of_ascii z)) as [E2|E2|E2];
    destruct (N.compare_spec (N_of_ascii x) (N_of_ascii z)) as [E3|E3|E3];
    try congruence; try lia.
  apply IH.
Qed.

Lemma codeUnitCompare_total (a b : string) :
  0 <= codeUnitCompare a b -> codeUnitCompare b a <= 0.
Proof.
  unfold codeUnitCompare. rewrite (String.compare_antisym b a).
  destruct (String.compare a b); simpl; lia.
Qed.

Lemma codeUnitCompare_trans (a b c : string) :
  codeUnitCompare a b <= 0 -> codeUnitCompare b c <= 0 -> codeUnitCompare a c <= 0.
Proof.
  unfold codeUnitCompare. intros H1 H2.
  assert (G := string_compare_le_trans a b c).
  destruct (String.compare a b), (String.compare b c), (String.compare a c);
    try lia; exfalso; apply G; congruence.
Qed.

Lemma registerRule_sorted_witness :
  exists reg',
    registerRule codeUnitCompare (mkRegistry [demoRule] ∅) demoRuleShadow = Normal reg' /\
    forall (i j : nat) (a b : Rule),
      (i < j)%nat -> rules reg' !! i = Some a -> rules reg' !! j = Some b ->
      typeIndex a < typeIndex b \/
      (type a = type b /\ codeUnitCompare (name a) (name b) <= 0).
Proof.
  exact (registerRule_sorted codeUnitCompare codeUnitCompare_total codeUnitCompare_trans
           (mkRegistry [demoRule] ∅) demoRuleShadow).
Defined.

(** *** Alias collisions *)

(** C6 (as stated, refuted).  ["Demo Rule"] and ["demo rule"] have the
    same alias; registering the second after the first completes
    normally, keeps both in the ordered sequence and makes the alias map
    point at the second. *)
Lemma registerRule_duplicate_alias_accepted :
  alias demoRule = alias demoRuleShadow /\
  exists reg1 reg2,
    registerRule codeUnitCompare emptyRegistry demoRule = Normal reg1 /\
    registerRule codeUnitCompare reg1 demoRuleShadow = Normal reg2 /\
    rules reg2 = [demoRuleShadow; demoRule] /\
    rulesDict reg1 !! "demo-rule" = Some demoRule /\
    rulesDict reg2 !! "demo-rule" = Some demoRuleShadow /\
    ~ exists e, registerRule codeUnitCompare reg1 demoRuleShadow = Throw e.
Proof.
  split; [reflexivity|].
  eexists. eexists. split; [reflexivity|]. split; [reflexivity|].
  split; [reflexivity|]. split; [reflexivity|]. split; [reflexivity|].
  intros [e He]. discriminate He.
Qed.

(** C6 (amended).  [registerRule] never signals an error: it completes
    normally for every registry and rule, the alias map then sends the
    rule's alias to the rule just registered (replacing any earlier rule
    of that alias), every other alias keeps its entry, and the ordered
    sequence holds the earlier rules and the new one. *)
Theorem registerRule_overwrites (lc : string -> string -> Z) (reg : Registry) (rule : Rule) :
  exists reg',
    registerRule lc reg rule = Normal reg' /\
    rulesDict reg' !! alias rule = Some rule /\
    (forall k, k <> alias rule -> rulesDict reg' !! k = rulesDict reg !! k) /\
    Permutation (rules reg') (rules reg ++ [rule])%list.
Proof.
  eexists. split; [reflexivity|]. simpl. split; [|split].
  - apply lookup_insert_eq.
  - intros k Hk. now apply lookup_insert_ne.
  - apply sort_perm.
Qed.

(** *** Options *)

Lemma getDefaultOptions_fold (opts : list RuleOption) (m : Options) (k : string) :
  fold_left (fun (m : Options) o => <[optionName o := defaultValue o]> m) opts m !! k =
  match lastDeclared k opts with
  | Some o => Some (defaultValue o)
  | None => m !! k
  end.
Proof.
  unfold lastDeclared. revert m.
  induction opts as [|o opts IH] using rev_ind; intros m; [reflexivity|].
  rewrite fold_left_app, rev_unit. simpl.
  destruct (String.eqb_spec (optionName o) k) as [->|Hne].
  - apply lookup_insert_eq.
  - rewrite lookup_insert_ne by exact Hne. apply IH.
Qed.

(** C5 (as stated, refuted).  The demo rule declares an option ["style"]
    with a default; neither with no stored entry for the rule nor with a
    stored entry that lacks the key does [getOptions] supply the default. *)
Lemma getOptions_no_default_counterexample :
  ~ resolvesWithDefaults demoRule settingsWithout /\
  ~ resolvesWithDefaults demoRule settingsWithEmpty.
Proof.
  split; intros (m & Hm & Hd).
  - discriminate Hm.
  - injection Hm as <-.
    specialize (Hd (mkOption "style" "Preferred style" (VString "multi-line") "Demo Rule")).
    simpl in Hd. discriminate Hd; [right; left; reflexivity|reflexivity].
Qed.

(** C5 (amended).  [getOptions] returns exactly the option map stored in
    the settings under the rule's name, [undefined] when there is none,
    with no fallback to defaults; the declared defaults are what
    [getDefaultOptions] returns: for every key, the default of the last
    option declared under that name, and nothing for a key no option
    declares. *)
Theorem getOptions_stored_only (r : Rule) (s : LinterSettings) (k : string) :
  getOptions r s = ruleConfigs s !! name r /\
  (forall m, getOptions r s = Some m -> m !! k = (ruleConfigs s !! name r) ≫= (.!! k)) /\
  getDefaultOptions r !! k = defaultValue <$> lastDeclared k (options r).
Proof.
  split; [reflexivity|]. split.
  - unfold getOptions. intros m ->. reflexivity.
  - unfold getDefaultOptions. rewrite getDefaultOptions_fold.
    destruct (lastDeclared k (options r)); [reflexivity|]. apply lookup_empty.
Qed.

(** ** [YamlTitleAlias] *)

Section TitleAliasScenario.
Variable load : string -> Completion YamlValue JsError.
Variable ignoreListOfTypes : list IgnoreTypes.t -> string -> (string -> string) -> string.
Variable getFirstHeaderOneText : string -> string.

(** The parser reads the empty document as nothing. *)
Hypothesis load_empty : load "" = Normal YNull.
(** With code, the metadata block and tags masked, the first level-one
    heading of the document is [Title]. *)
Hypothesis first_header :
  ignoreListOfTypes [IgnoreTypes.code; IgnoreTypes.yaml; IgnoreTypes.tag]
    "---
---
# Title" getFirstHeaderOneText = "Title".

(** C2. For the document [# Title] without metadata block and the default
    options, [YamlTitleAlias.apply] returns the document with a new
    leading metadata block that holds the multi-line array [aliases] with
    the one entry [Title] and the tracking key [linter-yaml-title-alias]
    with value [Title], followed by the unchanged body [# Title]. *)
Theorem apply_creates_aliases :
  let out := "---
aliases:
  - Title
linter-yaml-title-alias: Title
---
# Title" in
  YamlTitleAlias.apply load ignoreListOfTypes getFirstHeaderOneText
    "# Title" YamlTitleAlias.defaultOptions = Normal out /\
  exists body,
    matchYaml out = Some body /\
    out = "---" +:+ nl +:+ body +:+ "---" +:+ nl +:+ "# Title" /\
    getYamlSectionValue body "aliases" = Some (nl +:+ "  - Title") /\
    convertAliasValueToStringOrStringArray (nl +:+ "  - Title") = Some (AList ["Title"]) /\
    getYamlSectionValue body "linter-yaml-title-alias" = Some "Title".
Proof.
  split.
  - unfold YamlTitleAlias.apply.
    change (initYAML "# Title") with "---
---
# Title".
    cbv zeta. rewrite first_header.
    change (matchYaml "---
---
# Title") with (Some "").
    cbv beta iota.
    change (getYamlSectionValue "" LINTER_ALIASES_HELPER_KEY) with (@None string).
    unfold loadYAML at 1 2 3. rewrite load_empty.
    vm_compute. reflexivity.
  - eexists. repeat split; vm_compute; reflexivity.
Qed.
End TitleAliasScenario.

Lemma apply_creates_aliases_witness :
  let out := "---
aliases:
  - Title
linter-yaml-title-alias: Title
---
# Title" in
  YamlTitleAlias.apply MiniYaml.miniLoad MiniYaml.ignoreYamlOnly MiniYaml.firstHeaderOneText
    "# Title" YamlTitleAlias.defaultOptions = Normal out /\
  exists body,
    matchYaml out = Some body /\
    out = "---" +:+ nl +:+ body +:+ "---" +:+ nl +:+ "# Title" /\
    getYamlSectionValue body "aliases" = Some (nl +:+ "  - Title") /\
    convertAliasValueToStringOrStringArray (nl +:+ "  - Title") = Some (AList ["Title"]) /\
    getYamlSectionValue body "linter-yaml-title-alias" = Some "Title".
Proof.
  apply (apply_creates_aliases MiniYaml.miniLoad MiniYaml.ignoreYamlOnly
           MiniYaml.firstHeaderOneText); vm_compute; reflexivity.
Defined.

(** ** [getDisabledRules] *)

Lemma existsb_isAll (l : list YamlValue) :
  existsb isAll l = true <-> In (YString "all") l.
Proof.
  rewrite existsb_exists. split.
  - intros (v & Hin & Hv). destruct v; simpl in Hv; try discriminate.
    apply String.eqb_eq in Hv. now subst.
  - intros Hin. exists (YString "all"). split; [exact Hin|reflexivity].
Qed.

Section DisabledRulesFacts.
Variable matchYaml : string -> option string.
Variable getYamlSectionValue : string -> string -> option string.
Variable loadYAML : string -> Completion YamlValue JsError.

Let disabled := getDisabledRules matchYaml getYamlSectionValue loadYAML.

(** C10. When the value of [disabled rules] parses to an array that holds
    the string [all] anywhere among its entries, [getDisabledRules]
    returns the alias of every registered rule and drops the other
    entries. *)
Theorem getDisabledRules_all_in_array
    (rules : list Rule) (text yaml_text value : string)
    (parsed : YamlValue) (entries : list YamlValue) :
  matchYaml text = Some yaml_text ->
  getYamlSectionValue yaml_text "disabled rules" = Some value ->
  loadYAML (disabledRulesKeyAndValue value) = Normal parsed ->
  getProperty parsed "disabled rules" = Normal (Some (YSeq entries)) ->
  In (YString "all") entries ->
  disabled rules text = Normal (allAliases rules).
Proof.
  intros Hm Hv Hl Hp Hin. unfold disabled, getDisabledRules.
  rewrite Hm, Hv, Hl, Hp. simpl.
  apply existsb_isAll in Hin. now rewrite Hin.
Qed.

(** C4 (amended).  [getDisabledRules] returns the empty list when the
    document has no leading metadata block, when the block has no
    [disabled rules] key, and when the key's parsed value is empty
    (absent, null or the empty string); it returns the alias of every
    registered rule when the parsed value is the string [all] or an array
    that contains [all]; otherwise it returns a parsed string as a
    one-element list and a parsed array as it is. *)
Theorem getDisabledRules_cases (rules : list Rule) (text : string) :
  (matchYaml text = None -> disabled rules text = Normal []) /\
  (forall yaml_text,
      matchYaml text = Some yaml_text ->
      getYamlSectionValue yaml_text "disabled rules" = None ->
      disabled rules text = Normal []) /\
  (forall yaml_text value parsed field,
      matchYaml text = Some yaml_text ->
      getYamlSectionValue yaml_text "disabled rules" = Some value ->
      loadYAML (disabledRulesKeyAndValue value) = Normal parsed ->
      getProperty parsed "disabled rules" = Normal field ->
      match field with
      | None | Some YNull => disabled rules text = Normal []
      | Some (YString s) =>
          disabled rules text =
          Normal (if String.eqb s "" then []
                  else if String.eqb s "all" then allAliases rules
                  else [YString s])
      | Some (YSeq entries) =>
          disabled rules text =
          Normal (if existsb isAll entries then allAliases rules else entries)
      | Some other =>
          disabled rules text =
          if truthy (Some other)
          then Throw (typeError "disabled_rules.includes is not a function")
          else Normal []
      end).
Proof.
  unfold disabled, getDisabledRules. split; [|split].
  - intros ->. reflexivity.
  - intros y -> ->. reflexivity.
  - intros y value parsed field -> -> -> ->.
    destruct field as [[| b | z | s | entries | m]|]; simpl; try reflexivity.
    + now destruct b.
    + now destruct (z =? 0).
    + destruct (String.eqb s ""); simpl; [reflexivity|].
      rewrite orb_false_r. now destruct (String.eqb s "all").
    + now destruct (existsb isAll entries).
Qed.
End DisabledRulesFacts.

Lemma getDisabledRules_all_in_array_witness :
  getDisabledRules Yaml.matchYaml Yaml.getYamlSectionValue sampleParser
    sampleRules docDisabledArray
  = Normal [YString "yaml-title-alias"; YString "demo-rule"].
Proof.
  apply (getDisabledRules_all_in_array Yaml.matchYaml Yaml.getYamlSectionValue sampleParser
           sampleRules docDisabledArray
           ("disabled rules: [yaml-title-alias, all]" +:+ nl)
           "[yaml-title-alias, all]"
           (YMap [("disabled rules", YSeq [YString "yaml-title-alias"; YString "all"])])
           [YString "yaml-title-alias"; YString "all"]).
  - vm_compute; reflexivity.
  - vm_compute; reflexivity.
  - vm_compute; reflexivity.
  - vm_compute; reflexivity.
  - simpl. right. left. reflexivity.
Defined.

(** C4 (as stated, refuted).  In [docDisabledArray] the value of the key
    is the array [[yaml-title-alias, all]], not the literal token [all];
    the statement predicts that array as the result, and the code returns
    the alias of every registered rule instead. *)
Lemma getDisabledRules_not_as_stated :
  let parsed := YSeq [YString "yaml-title-alias"; YString "all"] in
  (exists yaml_text value doc,
      Yaml.matchYaml docDisabledArray = Some yaml_text /\
      Yaml.getYamlSectionValue yaml_text "disabled rules" = Some value /\
      sampleParser (disabledRulesKeyAndValue value) = Normal doc /\
      getProperty doc "disabled rules" = Normal (Some parsed)) /\
  getDisabledRules Yaml.matchYaml Yaml.getYamlSectionValue sampleParser
    sampleRules docDisabledArray
  <> Normal (disabledAliasesFor sampleRules (Some parsed)).
Proof.
  split.
  - do 3 eexists. repeat split; vm_compute; reflexivity.
  - vm_compute. discriminate.
Qed.

Lemma getDisabledRules_cases_witness :
  getDisabledRules Yaml.matchYaml Yaml.getYamlSectionValue sampleParser
    sampleRules docDisabledArray
  = Normal (allAliases sampleRules).
Proof.
  destruct (getDisabledRules_cases Yaml.matchYaml Yaml.getYamlSectionValue sampleParser
              sampleRules docDisabledArray) as (_ & _ & H).
  apply (H ("disabled rules: [yaml-title-alias, all]" +:+ nl)
           "[yaml-title-alias, all]"
           (YMap [("disabled rules", YSeq [YString "yaml-title-alias"; YString "all"])])
           (Some (YSeq [YString "yaml-title-alias"; YString "all"])));
    vm_compute; reflexivity.
Defined.

(** ** [ForceYamlEscape] *)

(** The guard of the loop: a value that holds a line feed, starts with a
    space and a bracket, or is escaped already leaves the block as it is. *)
Lemma escapeKey_skips (options : ForceYamlEscape.ForceYamlEscapeOptions)
    (text key value : string) :
  Yaml.getYamlSectionValue text key = Some value ->
  includes value nl || startsWith " [" value || isValueEscapedAlready value = true ->
  ForceYamlEscape.escapeKey options text key = text.
Proof.
  intros Hv Hskip. unfold ForceYamlEscape.escapeKey. now rewrite Hv, Hskip.
Qed.

(** A key that the block does not hold leaves it as it is, too. *)
Lemma escapeKey_absent (options : ForceYamlEscape.ForceYamlEscapeOptions)
    (text key : string) :
  Yaml.getYamlSectionValue text key = None ->
  ForceYamlEscape.escapeKey options text key = text.
Proof.
  intros Hv. unfold ForceYamlEscape.escapeKey. now rewrite Hv.
Qed.

(** C9, at the failing input.  The value of [key] is a single-line
    bracketed array; the rule wraps it in the escape character although
    the guard in the loop is meant to skip arrays: [getYamlSectionValue]
    hands the value over without the space behind the colon, so the test
    for a leading [" ["] does not see the bracket. *)
Theorem forceYamlEscape_wraps_array :
  Yaml.matchYaml docArrayValue = Some ("key: [a, b]" +:+ nl +:+ "title: This is a title" +:+ nl) /\
  Yaml.getYamlSectionValue ("key: [a, b]" +:+ nl +:+ "title: This is a title" +:+ nl) "key"
    = Some "[a, b]" /\
  ForceYamlEscape.apply docArrayValue (ForceYamlEscape.mkOptions dquote ["key"])
    = "---" +:+ nl +:+ "key: " +:+ dquote +:+ "[a, b]" +:+ dquote +:+ nl
      +:+ "title: This is a title" +:+ nl +:+ "---" +:+ nl.
Proof. repeat split; vm_compute; reflexivity. Qed.

(** ** The CJK spacing rule *)

Section CjkTwice.
Import CjkSpacing.
Variable ignoreListOfTypes : list IgnoreTypes.t -> Regex.text -> (Regex.text -> Regex.text) -> Regex.text.
Variable updateItalicsText : Regex.text -> (Regex.text -> Regex.text) -> Regex.text.
Variable updateBoldText : Regex.text -> (Regex.text -> Regex.text) -> Regex.text.

Let spacing := addSpaceAroundChineseJapaneseKoreanAndEnglish sampleScripts.
Let rule := CjkSpacing.apply sampleScripts ignoreListOfTypes updateItalicsText updateBoldText.

(** The sample texts hold no code, link, tag, emphasis or math and no
    metadata block: the masker hands them to the rewrite as they are, and
    there is no italics or bold span to update. *)
Hypothesis nothing_to_mask :
  forall kinds t, In t [sampleText; sampleOnce] -> ignoreListOfTypes kinds t spacing = spacing t.
Hypothesis no_italics :
  forall t, In t [sampleOnce; sampleTwice] -> updateItalicsText t spacing = t.
Hypothesis no_bold :
  forall t, In t [sampleOnce; sampleTwice] -> updateBoldText t spacing = t.

(** C3, at the failing input.  On the text U+4E2D, asterisk, U+4E2D, [a]
    the rule puts spaces around the asterisk but none between the second
    Han character and [a]; applied to its own output it adds that space.
    A second run therefore changes an already linted document. *)
Theorem cjk_apply_not_idempotent :
  rule sampleText = sampleOnce /\
  rule (rule sampleText) = sampleTwice /\
  rule (rule sampleText) <> rule sampleText.
Proof.
  assert (E1 : spacing sampleText = sampleOnce) by (vm_compute; reflexivity).
  assert (E2 : spacing sampleOnce = sampleTwice) by (vm_compute; reflexivity).
  assert (R1 : rule sampleText = sampleOnce).
  { unfold rule, CjkSpacing.apply. fold spacing.
    rewrite nothing_to_mask by (simpl; auto). rewrite E1.
    rewrite no_italics by (simpl; auto). apply no_bold. simpl; auto. }
  assert (R2 : rule sampleOnce = sampleTwice).
  { unfold rule, CjkSpacing.apply. fold spacing.
    rewrite nothing_to_mask by (simpl; auto). rewrite E2.
    rewrite no_italics by (simpl; auto). apply no_bold. simpl; auto. }
  split; [exact R1|]. rewrite R1, R2. split; [reflexivity|].
  vm_compute. discriminate.
Qed.
End CjkTwice.

Lemma cjk_apply_not_idempotent_witness :
  let rule := CjkSpacing.apply CjkSpacing.sampleScripts
                (fun _ t f => f t) (fun t _ => t) (fun t _ => t) in
  rule CjkSpacing.sampleText = CjkSpacing.sampleOnce /\
  rule (rule CjkSpacing.sampleText) = CjkSpacing.sampleTwice /\
  rule (rule CjkSpacing.sampleText) <> rule CjkSpacing.sampleText.
Proof.
  apply (cjk_apply_not_idempotent (fun _ t f => f t) (fun t _ => t) (fun t _ => t));
    intros; reflexivity.
Defined.


(** ** The region masker *)

Section MaskerFacts.
Import Masker.
Context {A : Type}.
Variable eqb : A -> A -> bool.
Variable placeholderText : IgnoreTypes.t -> list A.
Variable recognize : IgnoreTypes.t -> list A -> list (nat * nat).

Abbreviation span := (nat * nat * IgnoreTypes.t)%type.

(** [a] ends before [b] starts. *)
Let before (a b : span) : Prop := (snd (fst a) <= fst (fst b))%nat.






(** *** Which spans are accepted *)











(** *** The accepted spans in text order *)







End MaskerFacts.



(** * Further properties of the code *)

(** ** [Rule.alias] *)

Lemma lowerChar_aliasChar (c : ascii) :
  aliasChar (lowerChar (if Ascii.eqb c " "%char then "-"%char else c)) = true.
Proof. destruct c as [[] [] [] [] [] [] [] []]; vm_compute; reflexivity. Qed.

Lemma lowerChar_fixed (c : ascii) :
  aliasChar c = true ->
  lowerChar (if Ascii.eqb c " "%char then "-"%char else c) = c.
Proof. destruct c as [[] [] [] [] [] [] [] []]; vm_compute; congruence. Qed.

Lemma lowerChar_hyphen_commute (c : ascii) :
  lowerChar (if Ascii.eqb c " "%char then "-"%char else c)
  = (if Ascii.eqb (lowerChar c) " "%char then "-"%char else lowerChar c).
Proof. destruct c as [[] [] [] [] [] [] [] []]; vm_compute; reflexivity. Qed.

Lemma lowerChar_idem (c : ascii) : lowerChar (lowerChar c) = lowerChar c.
Proof. destruct c as [[] [] [] [] [] [] [] []]; vm_compute; reflexivity. Qed.

Lemma alias_chars (s : string) :
  allChars aliasChar (toLowerCase (replaceSpaces s)) = true.
Proof.
  induction s as [|c s IH]; [reflexivity|].
  simpl. now rewrite lowerChar_aliasChar, IH.
Qed.

(** X1. The alias of a rule holds no space and no upper-case ASCII
    letter. *)
Theorem alias_normal_form (r : Rule) : allChars aliasChar (alias r) = true.
Proof. unfold alias. apply alias_chars. Qed.

Lemma alias_fixed_string (s : string) :
  allChars aliasChar s = true -> toLowerCase (replaceSpaces s) = s.
Proof.
  induction s as [|c s IH]; [reflexivity|]. simpl.
  intros H. apply andb_prop in H as [Hc Hs].
  now rewrite lowerChar_fixed, IH.
Qed.

(** X2. Taking the alias is idempotent: a rule whose name is already the
    alias of some rule is its own alias, whatever its other fields. *)
Theorem alias_idempotent (r r' : Rule) :
  name r' = alias r -> alias r' = alias r.
Proof.
  intros H. unfold alias at 1. rewrite H.
  apply alias_fixed_string, alias_chars.
Qed.

Lemma alias_idempotent_witness :
  alias (mkRule (alias demoRule) "" YAML [] noop false) = alias demoRule.
Proof. apply (alias_idempotent demoRule). reflexivity. Defined.

Lemma toLowerCase_replaceSpaces (s : string) :
  toLowerCase (replaceSpaces s) = replaceSpaces (toLowerCase s).
Proof.
  induction s as [|c s IH]; [reflexivity|]. simpl.
  now rewrite lowerChar_hyphen_commute, IH.
Qed.

Lemma toLowerCase_idem (s : string) : toLowerCase (toLowerCase s) = toLowerCase s.
Proof.
  induction s as [|c s IH]; [reflexivity|]. simpl. now rewrite lowerChar_idem, IH.
Qed.

Lemma replaceSpaces_idem (s : string) : replaceSpaces (replaceSpaces s) = replaceSpaces s.
Proof.
  induction s as [|c s IH]; [reflexivity|]. simpl. rewrite IH. f_equal.
  destruct (Ascii.eqb_spec c " "%char); [reflexivity|].
  destruct (Ascii.eqb_spec c " "%char); congruence.
Qed.

(** X3. The alias does not tell letter case, nor a space from a hyphen:
    two rules whose names agree once spaces are written as hyphens and
    letters in lower case have the same alias. *)
Theorem alias_collides (r1 r2 : Rule) :
  toLowerCase (name r1) = toLowerCase (name r2) \/
  replaceSpaces (name r1) = replaceSpaces (name r2) ->
  alias r1 = alias r2.
Proof.
  unfold alias. intros [H|H].
  - now rewrite !toLowerCase_replaceSpaces, H.
  - now rewrite H.
Qed.

Lemma alias_collides_witness : alias demoRule = alias demoRuleShadow.
Proof. apply alias_collides. left. reflexivity. Defined.

(** ** Rules and their options *)

(** X4. Every rule type has a place in [RuleTypeOrder]: [indexOf] never
    answers [-1] for it, and two types with the same index are the same
    type, so the category part of the comparator is a total order on the
    types. *)
Theorem indexOfType_range (a b : RuleType) :
  0 <= indexOfType a RuleTypeOrder <= 5 /\
  (indexOfType a RuleTypeOrder = indexOfType b RuleTypeOrder -> a = b).
Proof.
  split.
  - destruct a; vm_compute; split; discriminate.
  - destruct a, b; vm_compute; congruence.
Qed.

(** X5. The constructor puts the enabled flag in front of the given
    options: the first option is a boolean named by the rule's
    description with default [false], [enabledOptionName] is the
    description, the given options follow in their order, and every
    option carries the rule's name. *)
Theorem newRule_options (n d : string) (t : RuleType) (f : ApplyFunction)
    (opts : list RuleOption) (special : bool) :
  let r := newRule n d t f opts special in
  enabledOptionName r = Some d /\
  (exists rest, options r = mkOption d "" (VBool false) n :: rest /\
                List.map optionName rest = List.map optionName opts /\
                List.map defaultValue rest = List.map defaultValue opts) /\
  Forall (fun o => ruleName o = n) (options r).
Proof.
  simpl. split; [reflexivity|]. split.
  - eexists. split; [reflexivity|]. rewrite !map_map. split; reflexivity.
  - constructor; [reflexivity|]. apply Forall_forall. intros o Ho.
    apply list_elem_of_In, in_map_iff in Ho as (o' & <- & _). reflexivity.
Qed.

Lemma find_map_option (p : RuleOption -> bool) (g : RuleOption -> RuleOption)
    (l : list RuleOption) :
  (forall o, p (g o) = p o) ->
  find p (List.map g l) = option_map g (find p l).
Proof.
  intros Hp. induction l as [|o l IH]; [reflexivity|]. simpl.
  rewrite Hp. destruct (p o); [reflexivity|exact IH].
Qed.

Lemma find_app_option {A : Type} (p : A -> bool) (l1 l2 : list A) :
  find p (l1 ++ l2)%list = match find p l1 with
                           | Some x => Some x
                           | None => find p l2
                           end.
Proof.
  induction l1 as [|x l1 IH]; [reflexivity|]. simpl.
  destruct (p x); [reflexivity|exact IH].
Qed.

(** X6. The defaults of a freshly built rule: the enabled flag defaults
    to [false] under the description's name unless one of the given
    options has that very name, in which case the default of the last
    such option takes its place; any other key has the default of the
    last given option of that name. *)
Theorem newRule_defaults (n d : string) (t : RuleType) (f : ApplyFunction)
    (opts : list RuleOption) (special : bool) (k : string) :
  getDefaultOptions (newRule n d t f opts special) !! k =
  match lastDeclared k opts with
  | Some o => Some (defaultValue o)
  | None => if String.eqb d k then Some (VBool false) else None
  end.
Proof.
  unfold getDefaultOptions. rewrite getDefaultOptions_fold.
  unfold lastDeclared, newRule. simpl options.
  change (rev (?x :: ?l)) with (rev l ++ [x])%list.
  rewrite find_app_option, <- map_rev.
  rewrite (find_map_option (fun o => String.eqb (optionName o) k)) by reflexivity.
  destruct (find (fun o => String.eqb (optionName o) k) (rev opts)) as [o|]; simpl.
  - reflexivity.
  - destruct (String.eqb d k); [reflexivity|apply lookup_empty].
Qed.

(** X7. The keys of [getDefaultOptions] are exactly the declared option
    names. *)
Theorem getDefaultOptions_keys (r : Rule) (k : string) :
  is_Some (getDefaultOptions r !! k) <-> In k (List.map optionName (options r)).
Proof.
  unfold getDefaultOptions. rewrite getDefaultOptions_fold, lookup_empty.
  unfold lastDeclared. split.
  - destruct (find _ _) as [o|] eqn:E; [|intros [x Hx]; discriminate].
    intros _. apply find_some in E as [Hin Hk].
    apply String.eqb_eq in Hk. subst k.
    apply in_map. now apply in_rev.
  - intros Hin. apply in_map_iff in Hin as (o & <- & Ho).
    destruct (find _ _) as [o'|] eqn:E; [eexists; reflexivity|].
    apply in_rev in Ho. apply (find_none _ _ E) in Ho.
    simpl in Ho. rewrite String.eqb_refl in Ho. discriminate.
Qed.

(** ** The registry *)

Lemma insertSorted_split {A : Type} (cmp : A -> A -> Z) (x : A) (l : list A) :
  exists l1 l2,
    l = (l1 ++ l2)%list /\
    insertSorted cmp x l = (l1 ++ x :: l2)%list /\
    Forall (fun y => 0 <= cmp x y) l1 /\
    match l2 with
    | z :: _ => cmp x z < 0
    | [] => True
    end.
Proof.
  induction l as [|y l (l1 & l2 & E & Hi & H1 & H2)]; simpl.
  - exists [], []. repeat split; constructor.
  - destruct (Z.ltb_spec (cmp x y) 0) as [Hlt|Hge].
    + exists [], (y :: l). repeat split; [constructor|exact Hlt].
    + exists (y :: l1), l2. rewrite E at 1. rewrite Hi.
      repeat split; [constructor; assumption|exact H2].
Qed.

Lemma sort_snoc {A : Type} (cmp : A -> A -> Z) (l : list A) (x : A) :
  sort cmp (l ++ [x])%list = insertSorted cmp x (sort cmp l).
Proof. unfold sort. now rewrite fold_left_app. Qed.

Lemma insertSorted_last {A : Type} (cmp : A -> A -> Z) (x : A) (l : list A) :
  Forall (fun y => 0 <= cmp x y) l -> insertSorted cmp x l = (l ++ [x])%list.
Proof.
  induction 1 as [|y l Hy Hl IH]; simpl; [reflexivity|].
  destruct (Z.ltb_spec (cmp x y) 0); [lia|now rewrite IH].
Qed.

Section SortStable.
Context {A : Type} (cmp : A -> A -> Z).
Hypothesis cmp_asym : forall a b, cmp a b < 0 -> 0 < cmp b a.

(** Sorting a sorted list changes nothing. *)
Lemma sort_sorted_id (l : list A) :
  StronglySorted (fun a b => cmp a b <= 0) l -> sort cmp l = l.
Proof.
  induction l as [|x l IH] using rev_ind; intros Hs; [reflexivity|].
  rewrite sort_snoc.
  assert (Hl : StronglySorted (fun a b => cmp a b <= 0) l /\
               Forall (fun y => 0 <= cmp x y) l).
  { clear IH. induction l as [|y l IHl]; [split; constructor|].
    simpl in Hs. apply StronglySorted_inv in Hs as [Hs Hy].
    destruct (IHl Hs) as [G1 G2]. split.
    - constructor; [exact G1|].
      apply Forall_app in Hy as [Hy _]. exact Hy.
    - constructor; [|exact G2].
      apply Forall_app in Hy as [_ Hy]. inversion Hy as [|? ? Hyx _]; subst.
      destruct (Z.ltb_spec (cmp x y) 0) as [Hlt|Hge]; [|exact Hge].
      apply cmp_asym in Hlt. lia. }
  destruct Hl as [Hl Hx]. rewrite (IH Hl). now apply insertSorted_last.
Qed.
End SortStable.

Lemma compareRules_asym (lc : string -> string -> Z) :
  (forall a b, lc a b < 0 -> 0 < lc b a) ->
  forall a b, compareRules lc a b < 0 -> 0 < compareRules lc b a.
Proof.
  intros Hlc a b. unfold compareRules. fold (typeIndex a) (typeIndex b).
  destruct (Z.eqb_spec (typeIndex a - typeIndex b) 0) as [E|E];
    destruct (Z.eqb_spec (typeIndex b - typeIndex a) 0) as [E'|E']; try lia.
  apply Hlc.
Qed.

(** X8. Re-sorting on registration is stable.  When the ordered sequence
    is sorted (as it is after any registration), [registerRule] leaves
    the earlier rules in their order and puts the new rule behind every
    rule that it does not strictly precede: among rules of the same
    category and equal name the newcomer comes last. *)
Theorem registerRule_stable (lc : string -> string -> Z) (reg : Registry) (rule : Rule) :
  (forall a b, lc a b < 0 -> 0 < lc b a) ->
  StronglySorted (fun a b => compareRules lc a b <= 0) (rules reg) ->
  exists reg' l1 l2,
    registerRule lc reg rule = Normal reg' /\
    rules reg = (l1 ++ l2)%list /\
    rules reg' = (l1 ++ rule :: l2)%list /\
    Forall (fun y => 0 <= compareRules lc rule y) l1 /\
    match l2 with
    | z :: _ => compareRules lc rule z < 0
    | [] => True
    end.
Proof.
  intros Hlc Hs.
  destruct (insertSorted_split (compareRules lc) rule (rules reg))
    as (l1 & l2 & E & Hi & H1 & H2).
  eexists. exists l1, l2. split; [reflexivity|]. simpl.
  rewrite sort_snoc, (sort_sorted_id _ (compareRules_asym lc Hlc) _ Hs).
  repeat split; assumption.
Qed.

Lemma codeUnitCompare_asym (a b : string) :
  codeUnitCompare a b < 0 -> 0 < codeUnitCompare b a.
Proof.
  unfold codeUnitCompare. rewrite (String.compare_antisym b a).
  destruct (String.compare a b); simpl; lia.
Qed.

Lemma registerRule_stable_witness :
  exists reg' l1 l2,
    registerRule codeUnitCompare (mkRegistry [demoRuleShadow; demoRule] ∅) titleAliasRule
      = Normal reg' /\
    [demoRuleShadow; demoRule] = (l1 ++ l2)%list /\
    rules reg' = (l1 ++ titleAliasRule :: l2)%list /\
    Forall (fun y => 0 <= compareRules codeUnitCompare titleAliasRule y) l1 /\
    match l2 with
    | z :: _ => compareRules codeUnitCompare titleAliasRule z < 0
    | [] => True
    end.
Proof.
  apply (registerRule_stable codeUnitCompare (mkRegistry [demoRuleShadow; demoRule] ∅)
           titleAliasRule codeUnitCompare_asym).
  simpl. repeat constructor; vm_compute; discriminate.
Defined.

(** X9. The alias map and the ordered sequence stay in step: if every
    entry of the map is a rule of the sequence filed under its own alias
    and every rule of the sequence has an entry under its alias, the same
    holds after [registerRule], which also keeps every earlier rule in
    the sequence, adds the new rule to it and files the new rule under
    its alias (a rule whose entry was overwritten stays in the sequence,
    and its alias still has an entry). *)
Theorem registerRule_consistent (lc : string -> string -> Z) (reg : Registry) (rule : Rule) :
  consistent reg ->
  exists reg',
    registerRule lc reg rule = Normal reg' /\
    consistent reg' /\
    In rule (rules reg') /\
    (forall r, In r (rules reg) -> In r (rules reg')) /\
    rulesDict reg' !! alias rule = Some rule.
Proof.
  intros [H1 H2]. eexists. split; [reflexivity|].
  assert (P : forall r, In r (rules reg ++ [rule])%list <->
                        In r (sort (compareRules lc) (rules reg ++ [rule])%list)).
  { intros r. split; apply Permutation_in; [symmetry|]; apply sort_perm. }
  split; [split|]; simpl.
  - intros a r Hr. destruct (decide (alias rule = a)) as [<-|Hne].
    + rewrite lookup_insert_eq in Hr. injection Hr as <-.
      split; [|reflexivity]. apply P, in_or_app. right. now left.
    + rewrite lookup_insert_ne in Hr by exact Hne.
      destruct (H1 a r Hr) as [Hin Ha]. split; [|exact Ha].
      apply P, in_or_app. now left.
  - intros r Hr. apply P, in_app_or in Hr as [Hr|[<-|[]]].
    + destruct (decide (alias rule = alias r)) as [E|Hne].
      * rewrite E, lookup_insert_eq. eexists; reflexivity.
      * rewrite lookup_insert_ne by exact Hne. now apply H2.
    + rewrite lookup_insert_eq. eexists; reflexivity.
  - split; [|split].
    + apply P, in_or_app. right. now left.
    + intros r Hr. apply P, in_or_app. now left.
    + apply lookup_insert_eq.
Qed.

(** The demo registry is consistent. *)
Lemma demoRegistry_consistent : consistent demoRegistry.
Proof.
  split; simpl.
  - intros a r H. destruct (decide ("demo-rule" = a)) as [<-|Hne].
    + rewrite lookup_insert_eq in H. injection H as <-.
      split; [now left|reflexivity].
    + rewrite lookup_insert_ne, lookup_empty in H by exact Hne. discriminate H.
  - intros r [<-|[]]. rewrite lookup_insert_eq.
    eexists; reflexivity.
Qed.

Lemma registerRule_consistent_witness :
  exists reg',
    registerRule codeUnitCompare demoRegistry demoRuleShadow = Normal reg' /\
    consistent reg' /\
    In demoRuleShadow (rules reg') /\
    (forall r, In r (rules demoRegistry) -> In r (rules reg')) /\
    rulesDict reg' !! alias demoRuleShadow = Some demoRuleShadow.
Proof.
  apply (registerRule_consistent codeUnitCompare demoRegistry demoRuleShadow).
  exact demoRegistry_consistent.
Defined.

(** X10. A start-up sequence of registrations never fails; afterwards
    the ordered sequence holds the earlier rules and all registered ones,
    and the alias map sends an alias to the rule registered last under
    it (to its earlier entry when no registered rule has that alias). *)
Theorem registerAll_last_wins (lc : string -> string -> Z) (toRegister : list Rule) :
  forall reg : Registry,
  exists reg',
    registerAll lc toRegister reg = Normal reg' /\
    Permutation (rules reg') (rules reg ++ toRegister)%list /\
    forall a, rulesDict reg' !! a =
              match find (fun r => String.eqb (alias r) a) (rev toRegister) with
              | Some r => Some r
              | None => rulesDict reg !! a
              end.
Proof.
  unfold registerAll.
  induction toRegister as [|rule rs IH]; intros reg; simpl.
  - exists reg. split; [reflexivity|]. split; [now rewrite app_nil_r|reflexivity].
  - destruct (IH (mkRegistry (sort (compareRules lc) (rules reg ++ [rule])%list)
                    (<[alias rule := rule]> (rulesDict reg)))) as (reg' & E & P & D).
    exists reg'. split; [exact E|]. split.
    + rewrite P. simpl. rewrite sort_perm, <- app_assoc. reflexivity.
    + intros a. rewrite D, find_app_option. simpl.
      destruct (find _ (rev rs)); [reflexivity|].
      destruct (String.eqb_spec (alias rule) a) as [<-|Hne].
      * apply lookup_insert_eq.
      * now apply lookup_insert_ne.
Qed.

(** ** [wrapLintError] *)

Lemma indexOf_ge (c : ascii) (s : string) : -1 <= indexOf c s.
Proof.
  induction s as [|a s IH]; simpl; [lia|].
  destruct (Ascii.eqb a c); [lia|].
  destruct (Z.ltb_spec (indexOf c s) 0); lia.
Qed.

Lemma indexOf_first (c : ascii) (pre post : string) :
  indexOf c pre = -1 ->
  indexOf c (pre +:+ String c post) = Z.of_nat (String.length pre).
Proof.
  induction pre as [|a pre IH]; intros H.
  - rewrite append_empty_l. simpl. now rewrite Ascii.eqb_refl.
  - rewrite append_cons. simpl in *.
    destruct (Ascii.eqb a c); [discriminate|].
    destruct (Z.ltb_spec (indexOf c pre) 0) as [Hlt|Hge]; [|lia].
    pose proof (indexOf_ge c pre).
    rewrite IH by lia.
    destruct (Z.ltb_spec (Z.of_nat (String.length pre)) 0); lia.
Qed.

Lemma dropChars_append (pre post : string) :
  dropChars (String.length pre) (pre +:+ post) = post.
Proof.
  induction pre as [|a pre IH]; [reflexivity|].
  rewrite append_cons. simpl. exact IH.
Qed.

Lemma substring_past_first (c : ascii) (pre post : string) :
  indexOf c pre = -1 ->
  substring (indexOf c (pre +:+ String c post) + 1) (pre +:+ String c post) = post.
Proof.
  intros H. rewrite indexOf_first by exact H. unfold substring.
  replace (Z.to_nat (Z.of_nat (String.length pre) + 1)) with (String.length (pre +:+ String c ""))%nat.
  - replace (pre +:+ String c post) with ((pre +:+ String c "") +:+ post).
    + apply dropChars_append.
    + clear H. induction pre as [|a pre IH]; [reflexivity|].
      rewrite !append_cons. now rewrite IH.
  - clear H. induction pre as [|a pre IH]; [reflexivity|].
    rewrite append_cons. simpl String.length. lia.
Qed.

(** X11. For a YAML exception the message keeps what follows the first
    colon of the exception's text (its name is cut off); a text without
    colon is kept whole. *)
Theorem wrapLintError_yaml (e : JsError) (n : string) :
  isYAMLException e = true ->
  exists rest,
    wrapLintError e n
    = Throw (mkLinterError
               (dquote +:+ n +:+ dquote +:+ " encountered an " +:+ "error in the yaml: " +:+ rest) e) /\
    (forall pre post,
        errorToString e = pre +:+ String ":" post -> indexOf ":" pre = -1 -> rest = post) /\
    (indexOf ":" (errorToString e) = -1 -> rest = errorToString e).
Proof.
  intros Hy. unfold wrapLintError. rewrite Hy. eexists. split; [reflexivity|]. split.
  - intros pre post -> Hpre. now apply substring_past_first.
  - intros ->. reflexivity.
Qed.

Lemma wrapLintError_yaml_witness :
  exists rest,
    wrapLintError (mkError true "bad indentation" "YAMLException: bad indentation") "Demo Rule"
    = Throw (mkLinterError
               (dquote +:+ "Demo Rule" +:+ dquote +:+ " encountered an " +:+ "error in the yaml: " +:+ rest)
               (mkError true "bad indentation" "YAMLException: bad indentation")) /\
    (forall pre post,
        "YAMLException: bad indentation" = pre +:+ String ":" post ->
        indexOf ":" pre = -1 -> rest = post) /\
    (indexOf ":" "YAMLException: bad indentation" = -1 -> rest = "YAMLException: bad indentation").
Proof.
  apply (wrapLintError_yaml (mkError true "bad indentation" "YAMLException: bad indentation")
           "Demo Rule").
  reflexivity.
Defined.

(** ** The closure [getNewAliasValue] of [YamlTitleAlias.apply] *)

Section NewAliasValue.
Import YamlTitleAlias.

Lemma findIndex_first {A : Type} (p : A -> bool) (l1 : list A) (x : A) (l2 : list A) :
  Forall (fun y => p y = false) l1 -> p x = true ->
  findIndex p (l1 ++ x :: l2)%list = Some (List.length l1).
Proof.
  induction 1 as [|y l1 Hy Hl IH]; intros Hx; simpl.
  - now rewrite Hx.
  - rewrite Hy, IH by exact Hx. reflexivity.
Qed.

Lemma findIndex_none {A : Type} (p : A -> bool) (l : list A) :
  Forall (fun y => p y = false) l -> findIndex p l = None.
Proof.
  induction 1 as [|y l Hy Hl IH]; simpl; [reflexivity|]. now rewrite Hy, IH.
Qed.

Lemma findIndex_some_in {A : Type} (p : A -> bool) (l : list A) (i : nat) :
  findIndex p l = Some i -> exists x, In x l /\ p x = true.
Proof.
  revert i. induction l as [|y l IH]; intros i; simpl; [discriminate|].
  destruct (p y) eqn:Hy.
  - intros _. exists y. split; [now left|exact Hy].
  - destruct (findIndex p l) as [j|]; [|discriminate].
    intros _. destruct (IH j eq_refl) as (x & Hx & Hp).
    exists x. split; [now right|exact Hp].
Qed.

Lemma setAt_middle (l1 : list string) (x t : string) (l2 : list string) :
  setAt (List.length l1) t (l1 ++ x :: l2)%list = (l1 ++ t :: l2)%list.
Proof. induction l1 as [|y l1 IH]; simpl; [reflexivity|now rewrite IH]. Qed.

Lemma splice1_middle (l1 : list string) (x : string) (l2 : list string) :
  splice1 (List.length l1) (l1 ++ x :: l2)%list = (l1 ++ l2)%list.
Proof.
  unfold splice1. induction l1 as [|y l1 IH]; simpl; [reflexivity|].
  f_equal. exact IH.
Qed.

(** X12. [getNewAliasValue] never returns an empty array: what is left
    empty comes back as the empty string, which makes [apply] remove the
    section. *)
Theorem getNewAliasValue_never_empty_array (title : string) (previousTitle : YamlValue)
    (originalValue : option AliasValue) (shouldRemoveTitle : bool) :
  fst (getNewAliasValue title previousTitle originalValue shouldRemoveTitle) <> AList [].
Proof.
  unfold getNewAliasValue.
  destruct originalValue as [original|]; [|destruct shouldRemoveTitle; discriminate].
  match goal with
  | |- fst (match fst ?u with _ => _ end) <> _ => destruct u as [[s|[|x l]] b]
  end; simpl; try discriminate.
  destruct (String.eqb s ""); discriminate.
Qed.

(** X13. Without a tracking key and when the title is to be kept, the
    new alias value names the title: it is the title, or an array that
    holds it. *)
Theorem getNewAliasValue_adds_title (title : string)
    (originalValue : option AliasValue) :
  namesTitle title (fst (getNewAliasValue title YNull originalValue false)).
Proof.
  unfold getNewAliasValue.
  destruct originalValue as [[s|l]|]; simpl.
  - now left.
  - destruct (indexOfBy (fun x => String.eqb x title) l) as [i|] eqn:E; simpl.
    + apply findIndex_some_in in E as (x & Hx & Hp).
      apply String.eqb_eq in Hp. subst x.
      destruct l as [|y l]; [destruct Hx|]. exact Hx.
    + now left.
  - reflexivity.
Qed.

(** X14. With a tracking key whose value is among the aliases and the
    title to be kept, the first alias equal to the tracked value is
    renamed to the title where it stands; the other aliases and their
    order stay, and the array is the one that was passed in. *)
Theorem getNewAliasValue_renames_in_place (title previous : string)
    (l1 l2 : list string) :
  ~ In previous l1 ->
  getNewAliasValue title (YString previous) (Some (AList (l1 ++ previous :: l2)%list)) false
  = (AList (l1 ++ title :: l2)%list, true).
Proof.
  intros Hn. unfold getNewAliasValue, indexOfBy.
  rewrite (findIndex_first _ l1 previous l2).
  - rewrite setAt_middle. simpl. destruct l1; reflexivity.
  - apply Forall_forall. intros y Hy. apply list_elem_of_In in Hy. simpl.
    apply String.eqb_neq. intros ->. contradiction.
  - simpl. apply String.eqb_refl.
Qed.

Lemma getNewAliasValue_renames_in_place_witness :
  getNewAliasValue "Title" (YString "alias1") (Some (AList (["alias0"] ++ "alias1" :: ["alias2"])%list)) false
  = (AList (["alias0"] ++ "Title" :: ["alias2"])%list, true).
Proof.
  apply (getNewAliasValue_renames_in_place "Title" "alias1" ["alias0"] ["alias2"]).
  simpl. intros [H|[]]. discriminate H.
Defined.

(** X15. With a tracking key whose value is not among the aliases (a
    stale key, or one that is no string), the array comes back as it is:
    the title is not added, whether it is to be kept or removed. *)
Theorem getNewAliasValue_stale_key (title : string) (previousTitle : YamlValue)
    (x : string) (l : list string) (shouldRemoveTitle : bool) :
  previousTitle <> YNull ->
  Forall (fun y => strictEqString previousTitle y = false) (x :: l) ->
  getNewAliasValue title previousTitle (Some (AList (x :: l))) shouldRemoveTitle
  = (AList (x :: l), true).
Proof.
  intros Hp Hl. unfold getNewAliasValue, indexOfBy.
  rewrite (findIndex_none _ _ Hl).
  destruct previousTitle; try reflexivity. contradiction.
Qed.

Lemma getNewAliasValue_stale_key_witness :
  getNewAliasValue "Title" (YString "gone") (Some (AList ["alias1"; "alias2"])) false
  = (AList ["alias1"; "alias2"], true).
Proof.
  apply (getNewAliasValue_stale_key "Title" (YString "gone") "alias1" ["alias2"] false).
  - discriminate.
  - repeat constructor.
Defined.

(** X16. Removing the title from an array without tracking key takes out
    its first occurrence only; an array left empty becomes the empty
    string. *)
Theorem getNewAliasValue_removes_first (title : string) (l1 l2 : list string) :
  ~ In title l1 ->
  getNewAliasValue title YNull (Some (AList (l1 ++ title :: l2)%list)) true
  = match (l1 ++ l2)%list with
    | [] => (AStr "", false)
    | rest => (AList rest, true)
    end.
Proof.
  intros Hn. unfold getNewAliasValue, indexOfBy.
  rewrite (findIndex_first _ l1 title l2).
  - rewrite splice1_middle. simpl. destruct (l1 ++ l2)%list; reflexivity.
  - apply Forall_forall. intros y Hy. apply list_elem_of_In in Hy.
    apply String.eqb_neq. intros ->. contradiction.
  - apply String.eqb_refl.
Qed.

Lemma getNewAliasValue_removes_first_witness :
  getNewAliasValue "Title" YNull (Some (AList (["a"] ++ "Title" :: ["Title"])%list)) true
  = (AList ["a"; "Title"], true).
Proof.
  apply (getNewAliasValue_removes_first "Title" ["a"] ["Title"]).
  simpl. intros [H|[]]. discriminate H.
Defined.
End NewAliasValue.

(** ** The spacing rewrite of the CJK rule *)

Section Matcher.
Import Regex.

(** The matcher is sound: when it succeeds, the continuation was handed a
    suffix of the text, and the part in front of it matches the
    expression. *)
Lemma matchK_sound {R : Type} (r : Regex) :
  forall (s : text) (k : text -> option R) (x : R),
    matchK r s k = Some x ->
    exists u s', s = (u ++ s')%list /\ Matches r u /\ k s' = Some x.
Proof.
  induction r as [|p|a IHa b IHb|a IHa b IHb|a IHa]; intros s k x H; simpl in H.
  - exists [], s. repeat split; [constructor|exact H].
  - destruct s as [|c s]; [discriminate|].
    destruct (p c) eqn:Hp; [|discriminate].
    exists [c], s. repeat split; [now constructor|exact H].
  - apply IHa in H as (u & s1 & -> & Hu & H).
    apply IHb in H as (v & s2 & -> & Hv & H).
    exists (u ++ v)%list, s2. rewrite <- app_assoc.
    repeat split; [now constructor|exact H].
  - destruct (matchK a s k) as [y|] eqn:E.
    + injection H as ->. apply IHa in E as (u & s' & -> & Hu & E).
      exists u, s'. repeat split; [now apply MatchesAltL|exact E].
    + apply IHb in H as (u & s' & -> & Hu & H).
      exists u, s'. repeat split; [now apply MatchesAltR|exact H].
  - set (n := List.length s) in H. clearbody n. revert s H.
    induction n as [|n IHn]; intros s H.
    + exists [], s. repeat split; [constructor|exact H].
    + match type of H with
      | match ?m with _ => _ end = _ => destruct m as [y|] eqn:E
      end.
      * injection H as ->. apply IHa in E as (u & s1 & -> & Hu & E).
        destruct (List.length s1 <? List.length (u ++ s1))%nat; [|discriminate].
        apply IHn in E as (v & s2 & -> & Hv & E).
        exists (u ++ v)%list, s2. rewrite <- app_assoc.
        repeat split; [now constructor|exact E].
      * exists [], s. repeat split; [constructor|exact H].
Qed.

Lemma matches_spaces (u : text) :
  Matches (Star (Chr space)) u -> withoutSpaces u = [].
Proof.
  remember (Star (Chr space)) as r eqn:Er. induction 1; try discriminate.
  - reflexivity.
  - injection Er as ->. unfold withoutSpaces in *. rewrite List.filter_app.
    rewrite IHMatches2 by reflexivity. rewrite app_nil_r.
    inversion H as [|p c Hc| | | | |]; subst. simpl. now rewrite Hc.
Qed.

Lemma consumed_app (u s' : text) : consumed (u ++ s')%list s' = u.
Proof.
  unfold consumed. rewrite length_app.
  replace (List.length u + List.length s' - List.length s')%nat with (List.length u) by lia.
  induction u as [|c u IH]; simpl; [now destruct s'|now rewrite IH].
Qed.

Lemma withoutSpaces_app (u v : text) :
  withoutSpaces (u ++ v)%list = (withoutSpaces u ++ withoutSpaces v)%list.
Proof. apply List.filter_app. Qed.
End Matcher.

Section SpacingRewrite.
Import Regex CjkSpacing.
Variable inScript : Script -> N -> bool.

Lemma withoutSpaces_cons (c : N) (s : text) :
  withoutSpaces (c :: s) = (withoutSpaces [c] ++ withoutSpaces s)%list.
Proof. apply (withoutSpaces_app [c] s). Qed.

(** A match of [head]: the replacement and the rest hold the characters
    of the text, spaces apart; the rest is shorter than the text; the
    text holds a CJK character. *)
Lemma headAt_spec (s rep rest : text) :
  headAt inScript s = Some (rep, rest) ->
  (withoutSpaces rep ++ withoutSpaces rest)%list = withoutSpaces s /\
  (List.length rest < List.length s)%nat /\
  exists c, In c s /\ cjk inScript c = true.
Proof.
  unfold headAt. destruct s as [|c s1]; [discriminate|].
  destruct (cjk inScript c) eqn:Hc; [|discriminate].
  intros H. apply matchK_sound in H as (u & s2 & -> & Hu & H).
  apply matchK_sound in H as (v & s3 & -> & Hv & H).
  injection H as <- <-. rewrite consumed_app. split; [|split].
  - rewrite (withoutSpaces_cons c (32%N :: v)), (withoutSpaces_cons 32%N v).
    rewrite (withoutSpaces_cons c (u ++ v ++ s3)%list), !withoutSpaces_app.
    rewrite (matches_spaces u Hu). simpl. now rewrite <- app_assoc.
  - simpl. rewrite !length_app. lia.
  - exists c. split; [now left|exact Hc].
Qed.

(** The same for a match of [tail]. *)
Lemma tailAt_spec (s rep rest : text) :
  tailAt inScript s = Some (rep, rest) ->
  (withoutSpaces rep ++ withoutSpaces rest)%list = withoutSpaces s /\
  (List.length rest < List.length s)%nat /\
  exists c, In c s /\ cjk inScript c = true.
Proof.
  unfold tailAt. intros H.
  apply matchK_sound in H as (g & s1 & E & Hg & H).
  apply matchK_sound in H as (u & s2 & -> & Hu & H).
  destruct s2 as [|c s3]; [discriminate|].
  destruct (cjk inScript c) eqn:Hc; [|discriminate].
  injection H as <- <-. subst s. rewrite consumed_app. split; [|split].
  - rewrite !withoutSpaces_app, (matches_spaces u Hu).
    rewrite (withoutSpaces_cons 32%N [c]), (withoutSpaces_cons c s3).
    simpl. now rewrite <- !app_assoc.
  - rewrite !length_app. simpl. lia.
  - exists c. split; [|exact Hc]. apply in_or_app. right.
    apply in_or_app. right. now left.
Qed.

Section Scan.
Variable matchAt : text -> option (text * text).
Hypothesis matchAt_spec :
  forall s rep rest, matchAt s = Some (rep, rest) ->
    (withoutSpaces rep ++ withoutSpaces rest)%list = withoutSpaces s /\
    (List.length rest < List.length s)%nat /\
    exists c, In c s /\ cjk inScript c = true.

Lemma replaceAll_withoutSpaces (fuel : nat) :
  forall s, withoutSpaces (replaceAll matchAt fuel s) = withoutSpaces s.
Proof.
  induction fuel as [|fuel IH]; intros s; simpl; [reflexivity|].
  destruct (matchAt s) as [[rep rest]|] eqn:E.
  - apply matchAt_spec in E as (E1 & E2 & _).
    apply Nat.ltb_lt in E2. rewrite E2.
    now rewrite withoutSpaces_app, IH.
  - destruct s as [|c s]; [reflexivity|].
    now rewrite (withoutSpaces_cons c (replaceAll matchAt fuel s)), IH,
      <- withoutSpaces_cons.
Qed.

Lemma replaceAll_no_cjk (fuel : nat) :
  forall s, forallb (fun c => negb (cjk inScript c)) s = true ->
            replaceAll matchAt fuel s = s.
Proof.
  induction fuel as [|fuel IH]; intros s Hs; simpl; [reflexivity|].
  destruct (matchAt s) as [[rep rest]|] eqn:E.
  - apply matchAt_spec in E as (_ & _ & c & Hin & Hc).
    rewrite forallb_forall in Hs. apply Hs in Hin. rewrite Hc in Hin. discriminate.
  - destruct s as [|c s]; [reflexivity|].
    simpl in Hs. apply andb_prop in Hs as [_ Hs]. now rewrite IH.
Qed.

(** The scan does not depend on the fuel once there is more of it than
    the text is long. *)
Lemma replaceAll_fuel (n : nat) :
  forall m s, (List.length s < n)%nat -> (List.length s < m)%nat ->
              replaceAll matchAt n s = replaceAll matchAt m s.
Proof.
  induction n as [|n IH]; intros m s Hn Hm; [lia|].
  destruct m as [|m]; [lia|]. simpl.
  destruct (matchAt s) as [[rep rest]|] eqn:E.
  - apply matchAt_spec in E as (_ & E2 & _).
    destruct (Nat.ltb_spec (List.length rest) (List.length s)); [|lia].
    f_equal. apply IH; lia.
  - destruct s as [|c s]; [reflexivity|]. simpl in Hn, Hm.
    f_equal. apply IH; lia.
Qed.
End Scan.

(** X17. The spacing rewrite of the CJK rule changes spaces only: the
    text without its spaces is the same before and after, whatever the
    script table says. *)
Theorem addSpace_changes_spaces_only (s : text) :
  withoutSpaces (addSpaceAroundChineseJapaneseKoreanAndEnglish inScript s) = withoutSpaces s.
Proof.
  unfold addSpaceAroundChineseJapaneseKoreanAndEnglish.
  rewrite (replaceAll_withoutSpaces (tailAt inScript) tailAt_spec).
  apply (replaceAll_withoutSpaces (headAt inScript) headAt_spec).
Qed.

(** X18. A text without Chinese, Japanese or Korean characters is left
    as it is. *)
Theorem addSpace_without_cjk (s : text) :
  forallb (fun c => negb (cjk inScript c)) s = true ->
  addSpaceAroundChineseJapaneseKoreanAndEnglish inScript s = s.
Proof.
  intros Hs. unfold addSpaceAroundChineseJapaneseKoreanAndEnglish.
  rewrite (replaceAll_no_cjk (headAt inScript) headAt_spec _ s Hs).
  apply (replaceAll_no_cjk (tailAt inScript) tailAt_spec _ s Hs).
Qed.
End SpacingRewrite.

Lemma addSpace_without_cjk_witness :
  CjkSpacing.addSpaceAroundChineseJapaneseKoreanAndEnglish CjkSpacing.sampleScripts
    (Regex.codes "plain *text* with `code`")
  = Regex.codes "plain *text* with `code`".
Proof.
  apply (addSpace_without_cjk CjkSpacing.sampleScripts). vm_compute. reflexivity.
Defined.
